(** * lfx-v2-fga-sync: the tuple reconciliation engine and its handlers

    A shallow embedding of the authorization-tuple synchronizer: the
    OpenFGA tuple store, the adapter operations the handlers call
    ([ReadObjectTuples], [WriteAndDeleteTuples],
    [DeleteTuplesByUserAndObject], [SyncObjectTuples]), the generic
    member handlers, the committee update handler with its policy
    expansion ([EvaluatePolicy]) and the check-request parser.

    Effects are modelled by a small state-and-error monad over a [World]
    holding the store and the trace of remote calls.  Whether a remote
    call fails (transport error, timeout) is decided by an oracle [fails]
    on the call, a parameter of the whole development. *)

From Stdlib Require Import Ascii.
From stdpp Require Import base gmap sets list strings.

Local Open Scope string_scope.

(** ** Data model *)

(** [client.ClientTupleKey] / [openfga.TupleKey]: a [(user, relation,
    object)] triple. *)
Record TupleKey := mkTuple {
  User : string;
  Relation : string;
  Object : string
}.

Global Instance TupleKey_eq_dec : EqDecision TupleKey.
Proof. solve_decision. Defined.

Global Instance TupleKey_countable : Countable TupleKey.
Proof.
  refine (inj_countable' (λ t, (User t, Relation t, Object t))
            (λ '(u, r, o), mkTuple u r o) _).
  by intros [].
Defined.

(** Remote calls issued to the store and to the bus. *)
Inductive Call :=
  | CRead (object : string)
  | CWrite (writes deletes : list TupleKey)
  | CRespond.

(** The store (a set of tuples, globally unique) and the calls made so far. *)
Record World := mkWorld {
  store : gset TupleKey;
  trace : list Call
}.

Inductive Result (A : Type) :=
  | Ok (a : A)
  | Err (e : string).
Arguments Ok {A} a.
Arguments Err {A} e.

(** State and error monad. *)
Definition M (A : Type) : Type := World → Result A * World.

Global Instance M_ret : MRet M := λ A a w, (Ok a, w).
Global Instance M_bind : MBind M := λ A B f m w,
  match m w with
  | (Ok a, w') => f a w'
  | (Err e, w') => (Err e, w')
  end.

Definition fail {A} (e : string) : M A := λ w, (Err e, w).
Definition gets {A} (f : World → A) : M A := λ w, (Ok (f w), w).
Definition modify_store (f : gset TupleKey → gset TupleKey) : M unit :=
  λ w, (Ok (), mkWorld (f (store w)) (trace w)).

(** Constants of [pkg/constants] used below. *)
Definition RelationParent : string := "parent".
Definition RelationViewer : string := "viewer".
Definition RelationMember : string := "member".
Definition UserWildcard : string := "user:*".
Definition ObjectTypeUser : string := "user:".

(** ** Payloads *)

(** [standardAccessStub] (handler.go). *)
Module StandardAccess.
Record standardAccessStub := {
  UID : string;
  ObjectType : string;
  Public : bool;
  Relations : gmap string (list string);
  References : gmap string (list string)
}.
End StandardAccess.

(** [domain.Policy] with [Validate], [ObjectID] and [UserRelation]. *)
Module Domain.
Record Policy := mkPolicy {
  Name : string;
  Relation : string;
  Value : string
}.

Definition Validate (p : Policy) : option string :=
  if decide (Name p = "") then Some "policy name cannot be empty"
  else if decide (Value p = "") then Some "policy value cannot be empty"
  else if decide (Relation p = "") then Some "policy relation cannot be empty"
  else None.

Definition ObjectID (p : Policy) : string := Name p ++ ":" ++ Value p.

Definition UserRelation (p : Policy) (objectID relation : string) : string :=
  objectID ++ "#" ++ relation.
End Domain.

(** [committeeStub] (handler_committee.go, the version with policies). *)
Module Committee.
Record committeeStub := {
  UID : string;
  ObjectType : string;
  Public : bool;
  Relations : gmap string (list string);
  References : gmap string string;
  Policies : list Domain.Policy
}.
End Committee.

(** [GenericMemberData]: the data of member_put / member_remove. *)
Module MemberData.
Record GenericMemberData := {
  UID : string;
  Username : string;
  Relations : list string;
  MutuallyExclusiveWith : list string
}.
End MemberData.

(** [memberOperationConfig] (handler.go). *)
Record memberOperationConfig := {
  objectTypePrefix : string;
  objectTypeName : string;
  relation : string;
  mutuallyExclusiveWith : list string
}.

(** Modelled from the spec: [buildObjectID], not in the sources; the object
    fingerprint is [<object_type>:<uid>] (section 3). *)
Definition buildObjectID (objectType uid : string) : string :=
  objectType ++ ":" ++ uid.

(** The desired tuples of [processStandardAccessUpdate]: the public
    wildcard, one tuple per reference value, one per principal.  Go map
    iteration order is unspecified; [map_to_list] fixes one. *)
Definition buildStandardTuples (obj : StandardAccess.standardAccessStub)
    : list TupleKey :=
  let object := StandardAccess.ObjectType obj ++ ":" ++ StandardAccess.UID obj in
  (if StandardAccess.Public obj then [mkTuple UserWildcard RelationViewer object]
   else [])
  ++ concat (map (λ '(reference, valueList),
                let refType := if decide (reference = RelationParent)
                               then StandardAccess.ObjectType obj else reference in
                map (λ value, mkTuple (refType ++ ":" ++ value) reference object)
                  valueList)
             (map_to_list (StandardAccess.References obj)))
  ++ concat (map (λ '(relation, principals),
                map (λ principal, mkTuple (ObjectTypeUser ++ principal) relation object)
                  principals)
             (map_to_list (StandardAccess.Relations obj))).

(** The desired tuples of [committeeUpdateAccessHandler]: as above, with one
    value per reference. *)
Definition buildCommitteeTuples (c : Committee.committeeStub) : list TupleKey :=
  let object := Committee.ObjectType c ++ ":" ++ Committee.UID c in
  (if Committee.Public c then [mkTuple UserWildcard RelationViewer object] else [])
  ++ map (λ '(reference, value),
         let refType := if decide (reference = RelationParent)
                        then Committee.ObjectType c else reference in
         mkTuple (refType ++ ":" ++ value) reference object)
      (map_to_list (Committee.References c))
  ++ concat (map (λ '(relation, principals),
                map (λ principal, mkTuple (ObjectTypeUser ++ principal) relation object)
                  principals)
             (map_to_list (Committee.Relations c))).

(** Validation of [parseAndValidateMemberPutMessage], after JSON decoding. *)
Definition validateMemberPut (objectType operation : string)
    (data : MemberData.GenericMemberData) : option string :=
  if decide (objectType = "") then Some "object_type is required"
  else if decide (operation ≠ "member_put") then
    Some "invalid operation for member_put handler"
  else if decide (MemberData.Username data = "") then Some "username is required"
  else if decide (MemberData.UID data = "") then Some "uid is required"
  else if decide (MemberData.Relations data = []) then
    Some "relations array cannot be empty"
  else if decide (Exists (λ r, r = "") (MemberData.Relations data)) then
    Some "relation value cannot be empty"
  else None.

(** Validation of [genericMemberRemoveHandler], after JSON decoding. *)
Definition validateMemberRemove (objectType operation : string)
    (data : MemberData.GenericMemberData) : option string :=
  if decide (objectType = "") then Some "object_type is required"
  else if decide (operation ≠ "member_remove") then
    Some "invalid operation for member_remove handler"
  else if decide (MemberData.Username data = "") then Some "username is required"
  else if decide (MemberData.UID data = "") then Some "uid is required"
  else None.

Section Engine.

(** The failure oracle: [fails c = Some e] when the remote call [c] fails
    with error [e]. *)
Variable fails : Call → option string.

(** Issue a remote call: it is recorded in the trace, then it fails or
    succeeds according to the oracle. *)
Definition perform (c : Call) : M unit := λ w,
  let w' := mkWorld (store w) (trace w ++ [c]) in
  match fails c with
  | Some e => (Err e, w')
  | None => (Ok (), w')
  end.

(** ** Store adapter *)

(** Modelled from the spec: [ReadObjectTuples] (section 4.1, ReadObject),
    whose body is not in the sources: every tuple whose object equals the
    argument; pages are concatenated, any page error fails the read. *)
Definition ReadObjectTuples (object : string) : M (list TupleKey) :=
  perform (CRead object) ;;
  gets (λ w, elements (filter (λ t, Object t = object) (store w))).

(** Modelled from the spec: [WriteAndDeleteTuples] (section 4.1,
    WriteAndDelete), whose body is not in the sources: one atomic call
    removing [deletes] and adding [writes]; an already existing write and a
    missing delete are not errors; no call is made for two empty lists. *)
Definition WriteAndDeleteTuples (writes deletes : list TupleKey) : M unit :=
  match writes, deletes with
  | [], [] => mret ()
  | _, _ =>
      perform (CWrite writes deletes) ;;
      modify_store (λ s, (s ∖ list_to_set deletes) ∪ list_to_set writes)
  end.

(** Modelled from the spec: [DeleteTuplesByUserAndObject] (section 4.1,
    DeleteByUserOnObject): read the object, keep the tuples of [user],
    delete them in one batch. *)
Definition DeleteTuplesByUserAndObject (user object : string) : M unit :=
  existing ← ReadObjectTuples object;
  WriteAndDeleteTuples [] (filter (λ t, User t = user) existing).

(** ** Full-object sync *)

(** Normalisation of the desired tuples, keyed by [(user, relation)]:
    an empty object is filled in, a foreign object is dropped, later
    entries overwrite earlier ones. *)
Definition normalizeTuple (object : string) (t : TupleKey) : option TupleKey :=
  if decide (Object t = "") then Some (mkTuple (User t) (Relation t) object)
  else if decide (Object t = object) then Some t
  else None.

Definition tupleMapKey (t : TupleKey) : string * string := (User t, Relation t).

(** Modelled from the spec: the normalisation step of [SyncObjectTuples]
    (section 4.2.1, step 1; the loop is replicated in
    [TestSyncObjectTuples_RelationMapping]). *)
Definition normalizeTuples (object : string) (desired : list TupleKey)
    : gmap (string * string) TupleKey :=
  foldl (λ m t,
           match normalizeTuple object t with
           | Some t' => <[tupleMapKey t' := t']> m
           | None => m
           end) ∅ desired.

(** Modelled from the spec: [SyncObjectTuples] (section 4.2.1), whose body
    is not in the sources.  Returns the numbers of writes and deletes. *)
Definition SyncObjectTuples (object : string) (desired : list TupleKey)
    (excluded : list string) : M (nat * nat) :=
  let desiredList := (map_to_list (normalizeTuples object desired)).*2 in
  current ← ReadObjectTuples object;
  let writes := filter (λ t, t ∉ current) desiredList in
  let deletes := filter (λ t, (t ∉ desiredList) ∧ (Relation t ∉ excluded)) current in
  match writes, deletes with
  | [], [] => mret (0, 0)
  | _, _ =>
      (WriteAndDeleteTuples writes deletes) ;;
      mret (length writes, length deletes)
  end.

(** [sendReplyIfNeeded]: respond "OK" when the message has a reply inbox. *)
Definition sendReplyIfNeeded (hasReply : bool) : M unit :=
  if hasReply then perform CRespond else mret ().

(** ** Generic update_access *)

(** [processStandardAccessUpdate] (handler.go), from the decoded stub. *)
Definition processStandardAccessUpdate (hasReply : bool)
    (obj : StandardAccess.standardAccessStub) (excludeRelations : list string)
    : M unit :=
  if decide (StandardAccess.UID obj = "") then
    fail (StandardAccess.ObjectType obj ++ " ID not found")
  else
    let object := StandardAccess.ObjectType obj ++ ":" ++ StandardAccess.UID obj in
    _ ← SyncObjectTuples object (buildStandardTuples obj) excludeRelations;
    sendReplyIfNeeded hasReply.

(** ** Policy expansion *)

(** The [checkTuple] closure of [EvaluatePolicy]. *)
Definition checkTuple (object user relation : string)
    : M (list TupleKey * list TupleKey) :=
  existingTuples ← ReadObjectTuples object;
  let tuplesToDelete :=
    map (λ t, mkTuple user (Relation t) object)
      (filter (λ t, User t = user ∧ Relation t ≠ relation) existingTuples) in
  let tuplesToWrite :=
    if decide (Exists (λ t, User t = user ∧ Relation t = relation) existingTuples)
    then [] else [mkTuple user relation object] in
  mret (tuplesToWrite, tuplesToDelete).

(** [policyHandler.EvaluatePolicy] (internal/service). *)
Definition EvaluatePolicy (policy : Domain.Policy)
    (objectID userObjectRelation : string) : M unit :=
  match Domain.Validate policy with
  | Some e => fail e
  | None =>
    if decide (objectID = "") then
      fail "object ID is required for policy evaluation"
    else
      let policyObject := Domain.ObjectID policy in
      '(writeObjPolicy, deleteObjPolicy) ←
        checkTuple objectID policyObject (Domain.Name policy);
      let userRelation := Domain.UserRelation policy objectID userObjectRelation in
      '(writePolicyRelation, deletePolicyRelation) ←
        checkTuple policyObject userRelation (Domain.Relation policy);
      let tuplesToWrite := (writeObjPolicy ++ writePolicyRelation)%list in
      let tuplesToDelete := (deleteObjPolicy ++ deletePolicyRelation)%list in
      match tuplesToWrite, tuplesToDelete with
      | [], [] => mret ()
      | _, _ => WriteAndDeleteTuples tuplesToWrite tuplesToDelete
      end
  end.

(** The policy loop of [committeeUpdateAccessHandler]: stop at the first
    failing policy. *)
Fixpoint evaluatePolicies (policies : list Domain.Policy) (object : string)
    : M unit :=
  match policies with
  | [] => mret ()
  | policy :: rest =>
      EvaluatePolicy policy object RelationMember ;;
      evaluatePolicies rest object
  end.

(** [committeeUpdateAccessHandler] (handler_committee.go), from the decoded
    stub: sync the committee with "member" excluded, then the policies. *)
Definition committeeUpdateAccessHandler (hasReply : bool)
    (c : Committee.committeeStub) : M unit :=
  if decide (Committee.UID c = "") then fail "committee ID not found"
  else
    let object := Committee.ObjectType c ++ ":" ++ Committee.UID c in
    _ ← SyncObjectTuples object (buildCommitteeTuples c) [RelationMember];
    evaluatePolicies (Committee.Policies c) object ;;
    sendReplyIfNeeded hasReply.

(** ** Member operations *)

(** [computeMemberPutChanges] (generic member_put). *)
Definition computeMemberPutChanges (object userPrincipal : string)
    (data : MemberData.GenericMemberData) : M (list TupleKey * list TupleKey) :=
  let mutuallyExclusiveMap : gset string :=
    list_to_set (MemberData.MutuallyExclusiveWith data) in
  existingTuples ← ReadObjectTuples object;
  let desiredRelations : gset string := list_to_set (MemberData.Relations data) in
  let existingRelationsMap : gset string :=
    list_to_set (map Relation (filter (λ t, User t = userPrincipal) existingTuples)) in
  let tuplesToDelete :=
    map (λ t, mkTuple (User t) (Relation t) (Object t))
      (filter (λ t, User t = userPrincipal
                    ∧ Relation t ∈ mutuallyExclusiveMap
                    ∧ Relation t ∉ desiredRelations) existingTuples) in
  let tuplesToWrite :=
    map (λ r, mkTuple userPrincipal r object)
      (filter (λ r, r ∉ existingRelationsMap) (elements desiredRelations)) in
  mret (tuplesToWrite, tuplesToDelete).

(** [applyMemberPutChanges]. *)
Definition applyMemberPutChanges (tuplesToWrite tuplesToDelete : list TupleKey)
    : M unit :=
  match tuplesToWrite, tuplesToDelete with
  | [], [] => mret ()
  | _, _ => WriteAndDeleteTuples tuplesToWrite tuplesToDelete
  end.

(** [genericMemberPutHandler], from the decoded envelope. *)
Definition genericMemberPutHandler (hasReply : bool) (objectType operation : string)
    (data : MemberData.GenericMemberData) : M unit :=
  match validateMemberPut objectType operation data with
  | Some e => fail e
  | None =>
      let object := buildObjectID objectType (MemberData.UID data) in
      let userPrincipal := ObjectTypeUser ++ MemberData.Username data in
      '(tuplesToWrite, tuplesToDelete) ←
        computeMemberPutChanges object userPrincipal data;
      applyMemberPutChanges tuplesToWrite tuplesToDelete ;;
      sendReplyIfNeeded hasReply
  end.

(** [putMember] (handler.go), the single-relation put of the legacy
    member handlers. *)
Definition putMember (userPrincipal object : string) (config : memberOperationConfig)
    : M unit :=
  existingTuples ← ReadObjectTuples object;
  let mutuallyExclusiveMap : gset string :=
    list_to_set (mutuallyExclusiveWith config) in
  let hasRelation :=
    bool_decide (Exists (λ t, User t = userPrincipal ∧ Relation t = relation config)
                   existingTuples) in
  let tuplesToDelete :=
    map (λ t, mkTuple (User t) (Relation t) (Object t))
      (filter (λ t, User t = userPrincipal
                    ∧ Relation t ≠ relation config
                    ∧ Relation t ∈ mutuallyExclusiveMap) existingTuples) in
  let tuplesToWrite :=
    if hasRelation then [] else [mkTuple userPrincipal (relation config) object] in
  match tuplesToWrite, tuplesToDelete with
  | [], [] => mret ()
  | _, _ => WriteAndDeleteTuples tuplesToWrite tuplesToDelete
  end.

(** [genericMemberRemoveHandler], from the decoded envelope. *)
Definition genericMemberRemoveHandler (hasReply : bool) (objectType operation : string)
    (data : MemberData.GenericMemberData) : M unit :=
  match validateMemberRemove objectType operation data with
  | Some e => fail e
  | None =>
      let object := buildObjectID objectType (MemberData.UID data) in
      let userPrincipal := ObjectTypeUser ++ MemberData.Username data in
      let validRelations := filter (λ r, r ≠ "") (MemberData.Relations data) in
      match validRelations with
      | [] => DeleteTuplesByUserAndObject userPrincipal object
      | _ =>
          WriteAndDeleteTuples []
            (map (λ r, mkTuple userPrincipal r object) validRelations)
      end ;;
      sendReplyIfNeeded hasReply
  end.

End Engine.

(** ** Further handlers *)

(** The double quote character (code 34) of the deletion-payload check. *)
Definition DoubleQuote : Ascii.ascii := Ascii.ascii_of_nat 34.

(** [GenericAccessData] (generic update_access). *)
Module GenericAccess.
Record GenericAccessData := {
  UID : string;
  Public : bool;
  Relations : gmap string (list string);
  References : gmap string (list string);
  ExcludeRelations : list string
}.
End GenericAccess.

(** [memberOperationStub] (handler.go). *)
Module MemberOperation.
Record memberOperationStub := {
  Username : string;
  ObjectUID : string
}.
End MemberOperation.

(** [memberOperation] (handler.go). *)
Inductive memberOperation := memberOperationPut | memberOperationRemove.

(** [committeeMemberStub] and [committeeMemberOperation] of the committee
    member handlers of handler_committee.go. *)
Module CommitteeMember.
Record committeeMemberStub := {
  Username : string;
  CommitteeUID : string
}.
End CommitteeMember.

Inductive committeeMemberOperation := committeeMemberPut | committeeMemberRemove.

Section Handlers.
Variable fails : Call → option string.

(** The adapter's [DeleteTuple] and [WriteTuples], whose bodies are not in
    the sources, are left abstract. *)
Variable DeleteTuple : string → string → string → M unit.
Variable WriteTuples : list TupleKey → M unit.

(** [ObjectTypeCommittee] of [pkg/constants], whose value is not in the
    sources. *)
Variable ObjectTypeCommittee : string.

(** [processDeleteAllAccessMessage] (handler.go): the payload is the bare
    object ID; it is synced with no desired tuple and no exclusion. *)
Definition processDeleteAllAccessMessage (hasReply : bool)
    (payload objectTypePrefix : string) : M unit :=
  match payload with
  | EmptyString => fail "empty deletion payload"
  | String c _ =>
      if decide (c = "{"%char ∨ c = "["%char ∨ c = DoubleQuote) then
        fail "unsupported deletion payload"
      else
        let object := objectTypePrefix ++ payload in
        _ ← SyncObjectTuples fails object [] [];
        sendReplyIfNeeded fails hasReply
  end.

(** [genericUpdateAccessHandler], from the decoded envelope. *)
Definition genericUpdateAccessHandler (hasReply : bool) (objectType operation : string)
    (data : GenericAccess.GenericAccessData) : M unit :=
  if decide (objectType = "") then fail "object_type is required"
  else if decide (operation ≠ "update_access") then
    fail "invalid operation for update_access handler"
  else
    processStandardAccessUpdate fails hasReply {|
      StandardAccess.UID := GenericAccess.UID data;
      StandardAccess.ObjectType := objectType;
      StandardAccess.Public := GenericAccess.Public data;
      StandardAccess.Relations := GenericAccess.Relations data;
      StandardAccess.References := GenericAccess.References data
    |} (GenericAccess.ExcludeRelations data).

(** [genericDeleteAccessHandler], from the decoded envelope ([uid] is the
    [uid] of its [GenericDeleteData]). *)
Definition genericDeleteAccessHandler (hasReply : bool)
    (objectType operation uid : string) : M unit :=
  if decide (objectType = "") then fail "object_type is required"
  else if decide (operation ≠ "delete_access") then
    fail "invalid operation for delete_access handler"
  else if decide (uid = "") then fail "uid is required"
  else
    let object := buildObjectID objectType uid in
    _ ← SyncObjectTuples fails object [] [];
    sendReplyIfNeeded fails hasReply.

(** [removeMember] (handler.go). *)
Definition removeMember (userPrincipal object : string) (config : memberOperationConfig)
    : M unit :=
  DeleteTuple userPrincipal (relation config) object.

(** [processMemberOperation] (handler.go), from the decoded stub. *)
Definition processMemberOperation (hasReply : bool)
    (member : MemberOperation.memberOperationStub) (operation : memberOperation)
    (config : memberOperationConfig) : M unit :=
  if decide (MemberOperation.Username member = "") then
    fail (objectTypeName config ++ " member username not found")
  else if decide (MemberOperation.ObjectUID member = "") then
    fail (objectTypeName config ++ " UID not found")
  else
    let objectFull := objectTypePrefix config ++ MemberOperation.ObjectUID member in
    let userPrincipal := ObjectTypeUser ++ MemberOperation.Username member in
    match operation with
    | memberOperationPut => putMember fails userPrincipal objectFull config
    | memberOperationRemove => removeMember userPrincipal objectFull config
    end ;;
    sendReplyIfNeeded fails hasReply.

(** [putCommitteeMember] (handler_committee.go): write the member tuple
    only when the user has no member tuple on the committee. *)
Definition putCommitteeMember (userPrincipal committeeObject : string) : M unit :=
  existingTuples ← ReadObjectTuples fails committeeObject;
  let hasMemberRelation :=
    bool_decide (Exists (λ t, User t = userPrincipal ∧ Relation t = RelationMember)
                   existingTuples) in
  if hasMemberRelation then mret ()
  else WriteTuples [mkTuple userPrincipal RelationMember committeeObject].

(** [removeCommitteeMember] (handler_committee.go). *)
Definition removeCommitteeMember (userPrincipal committeeObject : string) : M unit :=
  DeleteTuple userPrincipal RelationMember committeeObject.

(** [handleCommitteeMemberOperation] (handler_committee.go). *)
Definition handleCommitteeMemberOperation (member : CommitteeMember.committeeMemberStub)
    (operation : committeeMemberOperation) : M unit :=
  let committeeObject := ObjectTypeCommittee ++ CommitteeMember.CommitteeUID member in
  let userPrincipal := ObjectTypeUser ++ CommitteeMember.Username member in
  match operation with
  | committeeMemberPut => putCommitteeMember userPrincipal committeeObject
  | committeeMemberRemove => removeCommitteeMember userPrincipal committeeObject
  end.

(** [processCommitteeMemberMessage] (handler_committee.go), from the
    decoded stub. *)
Definition processCommitteeMemberMessage (hasReply : bool)
    (member : CommitteeMember.committeeMemberStub)
    (operation : committeeMemberOperation) : M unit :=
  if decide (CommitteeMember.Username member = "") then
    fail "committee member username not found"
  else if decide (CommitteeMember.CommitteeUID member = "") then
    fail "committee UID not found"
  else
    handleCommitteeMemberOperation member operation ;;
    sendReplyIfNeeded fails hasReply.

End Handlers.

(** The committee handler without policies (the second
    [committeeUpdateAccessHandler] of handler_committee.go): its stub has
    one value per reference and is converted to a [standardAccessStub]. *)
Module CommitteeV2.
Record committeeStub := {
  UID : string;
  ObjectType : string;
  Public : bool;
  Relations : gmap string (list string);
  References : gmap string string
}.

(** The conversion: the loop [References[key] = []string{value}] over the
    keys of a map builds the map of one-element lists. *)
Definition toStandardAccessStub (c : committeeStub) : StandardAccess.standardAccessStub := {|
  StandardAccess.UID := UID c;
  StandardAccess.ObjectType := ObjectType c;
  StandardAccess.Public := Public c;
  StandardAccess.Relations := Relations c;
  StandardAccess.References := (λ value, [value]) <$> References c
|}.

Section Handler.
Variable fails : Call → option string.

Definition committeeUpdateAccessHandler (hasReply : bool) (c : committeeStub) : M unit :=
  processStandardAccessUpdate fails hasReply (toStandardAccessStub c) [].
End Handler.
End CommitteeV2.

(** Meetings (handler_meeting.go): callers of the generic update and
    member operations. *)
Module Meeting.
Record meetingStub := {
  UID : string;
  Public : bool;
  ProjectUID : string;
  Organizers : list string;
  Committees : list string
}.

Record registrantStub := {
  RegistrantUID : string;
  Username : string;
  MeetingUID : string;
  Host : bool
}.

Section Handlers.
Variable fails : Call → option string.
Variable DeleteTuple : string → string → string → M unit.

(** Constants of [pkg/constants] whose values are not in the sources. *)
Variables ObjectTypeMeeting RelationProject RelationCommittee RelationOrganizer
  RelationParticipant RelationHost : string.

(** [meetingStub.toStandardAccessStub]. *)
Definition toStandardAccessStub (m : meetingStub) : StandardAccess.standardAccessStub :=
  let references0 : gmap string (list string) := ∅ in
  let references1 :=
    if decide (ProjectUID m ≠ "") then <[RelationProject := [ProjectUID m]]> references0
    else references0 in
  let references2 :=
    match Committees m with
    | [] => references1
    | _ => <[RelationCommittee := Committees m]> references1
    end in
  let relations0 : gmap string (list string) := ∅ in
  let relations1 :=
    match Organizers m with
    | [] => relations0
    | _ => <[RelationOrganizer := Organizers m]> relations0
    end in
  {| StandardAccess.UID := UID m;
     StandardAccess.ObjectType := "meeting";
     StandardAccess.Public := Public m;
     StandardAccess.Relations := relations1;
     StandardAccess.References := references2 |}.

(** [meetingUpdateAccessHandler], from the decoded stub. *)
Definition meetingUpdateAccessHandler (hasReply : bool) (meeting : meetingStub) : M unit :=
  if decide (ProjectUID meeting = "") then fail "meeting project ID not found"
  else
    processStandardAccessUpdate fails hasReply (toStandardAccessStub meeting)
      [RelationParticipant; RelationHost].

(** [meetingRegistrantPutHandler], from the decoded stub. *)
Definition meetingRegistrantPutHandler (hasReply : bool) (registrant : registrantStub)
    : M unit :=
  let genericMember := {|
    MemberOperation.Username := Username registrant;
    MemberOperation.ObjectUID := MeetingUID registrant |} in
  let relation := if Host registrant then RelationHost else RelationParticipant in
  let config := {|
    objectTypePrefix := ObjectTypeMeeting;
    objectTypeName := "meeting";
    relation := relation;
    mutuallyExclusiveWith := [RelationParticipant; RelationHost] |} in
  processMemberOperation fails DeleteTuple hasReply genericMember memberOperationPut config.
End Handlers.
End Meeting.


(** ** Check requests *)

(** A check item [<object>#<relation>@<user>]. *)
Record CheckItem := mkCheckItem {
  CheckObject : string;
  CheckRelation : string;
  CheckUser : string
}.

Definition LF : Ascii.ascii := Ascii.ascii_of_nat 10.

(** [strings.Split(s, sep)] for a one-character separator. *)
Fixpoint splitOn (c : Ascii.ascii) (s : string) : list string :=
  match s with
  | EmptyString => [""]
  | String a rest =>
      let parts := splitOn c rest in
      if decide (a = c) then "" :: parts
      else match parts with
           | p :: ps => String a p :: ps
           | [] => [String a ""]
           end
  end.

(** Split at the first occurrence of [c]. *)
Fixpoint breakAt (c : Ascii.ascii) (s : string) : option (string * string) :=
  match s with
  | EmptyString => None
  | String a rest =>
      if decide (a = c) then Some ("", rest)
      else match breakAt c rest with
           | Some (l, r) => Some (String a l, r)
           | None => None
           end
  end.

(** Modelled from the spec: the line parser of [ExtractCheckRequests]
    (section 4.3.1): [<object>#<relation>@<user>]. *)
Definition parseCheckLine (line : string) : option CheckItem :=
  match breakAt "#"%char line with
  | None => None
  | Some (object, rest) =>
      match breakAt "@"%char rest with
      | None => None
      | Some (relation, user) => Some (mkCheckItem object relation user)
      end
  end.

Fixpoint parseCheckLines (lines : list string) : Result (list CheckItem) :=
  match lines with
  | [] => Ok []
  | line :: rest =>
      if decide (line = "") then parseCheckLines rest
      else match parseCheckLine line with
           | None => Err ("invalid check request: " ++ line)
           | Some item =>
               match parseCheckLines rest with
               | Ok items => Ok (item :: items)
               | Err e => Err e
               end
           end
  end.

(** Modelled from the spec: [ExtractCheckRequests] (section 4.3.1), whose
    body is not in the sources: one check per LF-separated line, empty
    lines skipped, any malformed line fails the whole request. *)
Definition ExtractCheckRequests (payload : string) : Result (list CheckItem) :=
  parseCheckLines (splitOn LF payload).

Definition containsChar (c : Ascii.ascii) (s : string) : Prop :=
  c ∈ String.list_ascii_of_string s.

(** [n] line feeds. *)
Fixpoint newlines (n : nat) : string :=
  match n with
  | 0 => ""
  | S k => String LF (newlines k)
  end.

(** The relations [user] holds on [object] in a store. *)
Definition relationsOf (s : gset TupleKey) (user object : string) : gset string :=
  set_map Relation (filter (λ t, User t = user ∧ Object t = object) s).

Definition noFaults : Call → option string := λ _, None.
Definition emptyWorld : World := mkWorld ∅ [].

(** Fixtures for concrete runs. *)

#[global] Instance Call_eq_dec : EqDecision Call.
Proof. solve_decision. Defined.

(** An adapter whose only failing call is [c0], failing with [e]. *)
Definition failOn (c0 : Call) (e : string) : Call → option string :=
  λ c, if decide (c = c0) then Some e else None.

(** A committee-like standard-access stub with one reference value that
    already has the [type:ID] form. *)
Definition typedRefStub : StandardAccess.standardAccessStub := {|
  StandardAccess.UID := "C";
  StandardAccess.ObjectType := "committee";
  StandardAccess.Public := false;
  StandardAccess.Relations := ∅;
  StandardAccess.References := {[ "project" := ["project:P"] ]}
|}.

(** A committee with one reference and one policy. *)
Definition sampleCommittee : Committee.committeeStub := {|
  Committee.UID := "C";
  Committee.ObjectType := "committee";
  Committee.Public := true;
  Committee.Relations := ∅;
  Committee.References := {[ "project" := "P" ]};
  Committee.Policies :=
    [Domain.mkPolicy "visibility_policy" "allows_basic_profile" "basic_profile"]
|}.

(** A store with a member tuple, a writer tuple and a tuple of another
    object; the desired tuples of a sync on [committee:C]. *)
Definition syncWorld : World := mkWorld
  {[ mkTuple "user:bob" "member" "committee:C";
     mkTuple "user:carol" "writer" "committee:C";
     mkTuple "user:x" "viewer" "project:P" ]} [].

Definition syncDesired : list TupleKey :=
  [mkTuple "user:alice" "writer" ""; mkTuple "user:dave" "viewer" "other:X";
   mkTuple "user:alice" "writer" "committee:C"].

(** Alice is an auditor and a viewer of [committee:C], Bob an auditor. *)
Definition memberWorld : World := mkWorld
  {[ mkTuple "user:alice" "auditor" "committee:C";
     mkTuple "user:alice" "viewer" "committee:C";
     mkTuple "user:bob" "auditor" "committee:C" ]} [].

(** Alice becomes a writer, auditor and writer being mutually exclusive. *)
Definition putData : MemberData.GenericMemberData := {|
  MemberData.UID := "C";
  MemberData.Username := "alice";
  MemberData.Relations := ["writer"];
  MemberData.MutuallyExclusiveWith := ["auditor"; "writer"]
|}.

Definition writerConfig : memberOperationConfig := {|
  objectTypePrefix := "committee:";
  objectTypeName := "committee";
  relation := "writer";
  mutuallyExclusiveWith := ["auditor"]
|}.

(** Alice is removed from two relations, one of which she does not hold. *)
Definition removeData : MemberData.GenericMemberData := {|
  MemberData.UID := "C";
  MemberData.Username := "alice";
  MemberData.Relations := ["auditor"; ""; "writer"];
  MemberData.MutuallyExclusiveWith := []
|}.

Definition removeAllData : MemberData.GenericMemberData := {|
  MemberData.UID := "C";
  MemberData.Username := "alice";
  MemberData.Relations := [""];
  MemberData.MutuallyExclusiveWith := []
|}.

Definition visibilityPolicy : Domain.Policy :=
  Domain.mkPolicy "visibility_policy" "allows_basic_profile" "basic_profile".

(** [committee:C] points to the policy object under an outdated relation. *)
Definition policyWorld : World := mkWorld
  {[ mkTuple "visibility_policy:basic_profile" "old_policy" "committee:C" ]} [].

(** A payload with a well-formed line, an empty line and a malformed one. *)
Definition badPayload : string :=
  "committee:C#viewer@user:alice" ++ String LF (String LF "committee:C#viewer").

(** A [DeleteTuple] and a [WriteTuples] for concrete runs, each one call of
    [WriteAndDeleteTuples]. *)
Definition deleteTupleFixture (u r o : string) : M unit :=
  WriteAndDeleteTuples noFaults [] [mkTuple u r o].

Definition writeTuplesFixture (ts : list TupleKey) : M unit :=
  WriteAndDeleteTuples noFaults ts [].

(** A public committee where Alice is a writer. *)
Definition publicStub : StandardAccess.standardAccessStub := {|
  StandardAccess.UID := "C";
  StandardAccess.ObjectType := "committee";
  StandardAccess.Public := true;
  StandardAccess.Relations := {[ "writer" := ["alice"] ]};
  StandardAccess.References := ∅
|}.

(** The same access data in a generic envelope, excluding [member]. *)
Definition genericAccessData : GenericAccess.GenericAccessData := {|
  GenericAccess.UID := "C";
  GenericAccess.Public := true;
  GenericAccess.Relations := {[ "writer" := ["alice"] ]};
  GenericAccess.References := ∅;
  GenericAccess.ExcludeRelations := [RelationMember]
|}.

(** A committee of the second handler, with one project reference. *)
Definition committeeV2Stub : CommitteeV2.committeeStub := {|
  CommitteeV2.UID := "C";
  CommitteeV2.ObjectType := "committee";
  CommitteeV2.Public := true;
  CommitteeV2.Relations := ∅;
  CommitteeV2.References := {[ "project" := "P" ]}
|}.

Definition memberStub : MemberOperation.memberOperationStub := {|
  MemberOperation.Username := "alice";
  MemberOperation.ObjectUID := "C"
|}.

Definition committeeMemberFixture : CommitteeMember.committeeMemberStub := {|
  CommitteeMember.Username := "alice";
  CommitteeMember.CommitteeUID := "C"
|}.

(** Alice is a participant of [meeting:M], Bob a host. *)
Definition meetingWorld : World := mkWorld
  {[ mkTuple "user:alice" "participant" "meeting:M";
     mkTuple "user:bob" "host" "meeting:M" ]} [].

(** Alice registers again, now as a host. *)
Definition hostRegistrant : Meeting.registrantStub := {|
  Meeting.RegistrantUID := "R";
  Meeting.Username := "alice";
  Meeting.MeetingUID := "M";
  Meeting.Host := true
|}.

Definition sampleMeeting : Meeting.meetingStub := {|
  Meeting.UID := "M";
  Meeting.Public := false;
  Meeting.ProjectUID := "P";
  Meeting.Organizers := ["carol"];
  Meeting.Committees := ["C"]
|}.

(** [admissible o D u r]: some entry of [D] for the key [(u, r)] is kept
    by the normalisation (its object is empty or [o]). *)
Definition admissible (o : string) (D : list TupleKey) (u r : string) : Prop :=
  ∃ t0, t0 ∈ D ∧ User t0 = u ∧ Relation t0 = r ∧ (Object t0 = "" ∨ Object t0 = o).

(** * Proofs *)

Definition logCall (w : World) (c : Call) : World :=
  mkWorld (store w) (trace w ++ [c]).

Lemma TupleKey_eta (t : TupleKey) : t = mkTuple (User t) (Relation t) (Object t).
Proof. by destruct t. Qed.

Lemma elem_of_read_set (S : gset TupleKey) (o : string) (t : TupleKey) :
  t ∈ elements (filter (λ t, Object t = o) S) ↔ t ∈ S ∧ Object t = o.
Proof. rewrite elem_of_elements, elem_of_filter. tauto. Qed.

Lemma filter_none {A} (P : A → Prop) `{!∀ x, Decision (P x)} (l : list A) :
  (∀ x, x ∈ l → ¬ P x) → filter P l = [].
Proof.
  intros Hnone. destruct (filter P l) as [|x l'] eqn:E; [done|].
  assert (x ∈ filter P l) as Hx by (rewrite E; left).
  apply list_elem_of_filter in Hx as [? ?]. exfalso. by eapply Hnone.
Qed.

Lemma M_bind_run {A B} (m : M A) (k : A → M B) (w : World) :
  (m ≫= k) w = match m w with
               | (Ok a, w') => k a w'
               | (Err e, w') => (Err e, w')
               end.
Proof. done. Qed.

Section Runs.
Variable fails : Call → option string.

Lemma perform_run (c : Call) (w : World) :
  perform fails c w =
    (match fails c with Some e => Err e | None => Ok () end, logCall w c).
Proof. unfold perform. by destruct (fails c). Qed.

Lemma ReadObjectTuples_run (o : string) (w : World) :
  ReadObjectTuples fails o w =
    (match fails (CRead o) with
     | Some e => Err e
     | None => Ok (elements (filter (λ t, Object t = o) (store w)))
     end, logCall w (CRead o)).
Proof. unfold ReadObjectTuples, perform. cbn. by destruct (fails (CRead o)). Qed.

Lemma ReadObjectTuples_bind {A} (o : string) (k : list TupleKey → M A) (w : World) :
  (ReadObjectTuples fails o ≫= k) w =
    match fails (CRead o) with
    | Some e => (Err e, logCall w (CRead o))
    | None => k (elements (filter (λ t, Object t = o) (store w))) (logCall w (CRead o))
    end.
Proof.
  cbn. unfold ReadObjectTuples, perform. cbn. by destruct (fails (CRead o)).
Qed.

(** Outcomes of [WriteAndDeleteTuples]: the store is unchanged or the batch
    is applied, and it is applied whenever the call succeeds. *)
Lemma WriteAndDeleteTuples_ok (ws ds : list TupleKey) (w w' : World) :
  WriteAndDeleteTuples fails ws ds w = (Ok (), w') →
  store w' = (store w ∖ list_to_set ds) ∪ list_to_set ws.
Proof.
  unfold WriteAndDeleteTuples.
  destruct ws, ds; cbn;
    try (intros [= <-]; set_solver);
    unfold perform; cbn; destruct (fails _); cbn; intros [= <-]; set_solver.
Qed.

Lemma WriteAndDeleteTuples_store (ws ds : list TupleKey) (w w' : World) r :
  WriteAndDeleteTuples fails ws ds w = (r, w') →
  store w' = store w ∨ store w' = (store w ∖ list_to_set ds) ∪ list_to_set ws.
Proof.
  unfold WriteAndDeleteTuples.
  destruct ws, ds; cbn;
    try (intros [= _ <-]; by left);
    unfold perform; cbn; destruct (fails _); cbn; intros [= _ <-]; auto.
Qed.

Lemma sendReplyIfNeeded_store (b : bool) (w w' : World) r :
  sendReplyIfNeeded fails b w = (r, w') → store w' = store w.
Proof.
  unfold sendReplyIfNeeded, perform. destruct b; cbn.
  - destruct (fails CRespond); by intros [= _ <-].
  - by intros [= _ <-].
Qed.

End Runs.

(** ** Normalisation of the desired tuples *)


Lemma normalizeTuples_snoc (o : string) (D : list TupleKey) (t : TupleKey) :
  normalizeTuples o (D ++ [t]) =
    match normalizeTuple o t with
    | Some t' => <[tupleMapKey t' := t']> (normalizeTuples o D)
    | None => normalizeTuples o D
    end.
Proof. unfold normalizeTuples. by rewrite foldl_app. Qed.

Lemma normalizeTuples_lookup (o : string) (D : list TupleKey) (k : string * string) :
  normalizeTuples o D !! k =
    last (filter (λ t, tupleMapKey t = k) (omap (normalizeTuple o) D)).
Proof.
  induction D as [|t D IH] using rev_ind.
  - cbn. by rewrite lookup_empty.
  - rewrite normalizeTuples_snoc, omap_app, filter_app, last_app. cbn.
    destruct (normalizeTuple o t) as [t'|] eqn:Hn; cbn; [|done].
    case_decide as Hk; cbn.
    + subst k. by rewrite lookup_insert_eq.
    + rewrite lookup_insert_ne by done. done.
Qed.

Lemma normalizeTuple_Some (o : string) (t t' : TupleKey) :
  normalizeTuple o t = Some t' ↔
    (Object t = "" ∨ Object t = o) ∧ t' = mkTuple (User t) (Relation t) o.
Proof.
  unfold normalizeTuple. destruct t as [u r ob]; cbn.
  repeat case_decide; subst; split; try intros [= <-]; try naive_solver.
Qed.

Lemma normalizeTuples_values (o : string) (D : list TupleKey) k (t : TupleKey) :
  normalizeTuples o D !! k = Some t →
  Object t = o ∧ tupleMapKey t = k ∧ ∃ t0, t0 ∈ D ∧ normalizeTuple o t0 = Some t.
Proof.
  rewrite normalizeTuples_lookup. intros Hl%last_Some_elem_of.
  apply list_elem_of_filter in Hl as [Hk Hin].
  apply list_elem_of_omap in Hin as (t0 & Ht0 & Hn).
  pose proof Hn as Hn'. apply normalizeTuple_Some in Hn' as [_ ->].
  split; [done|]. split; [done|]. eauto.
Qed.

(** The tuple list handed to the diff: the values of the normalised map. *)
Lemma desired_elem (o : string) (D : list TupleKey) (t : TupleKey) :
  t ∈ (map_to_list (normalizeTuples o D)).*2 ↔
    Object t = o ∧ admissible o D (User t) (Relation t).
Proof.
  rewrite list_elem_of_fmap. split.
  - intros ([k v] & -> & Hkv). apply elem_of_map_to_list in Hkv. cbn.
    apply normalizeTuples_values in Hkv as (Ho & _ & t0 & Hin & Hn).
    apply normalizeTuple_Some in Hn as [Hob ->]. cbn.
    split; [done|]. exists t0. naive_solver.
  - intros [Ho (t0 & Hin & Hu & Hr & Hob)].
    set (k := (User t, Relation t)).
    assert (Hne : filter (λ t, tupleMapKey t = k) (omap (normalizeTuple o) D) ≠ []).
    { intros Hnil. eapply (filter_nil_not_elem_of _ _ (mkTuple (User t) (Relation t) o))
        in Hnil; [|by subst k; cbn].
      apply Hnil. apply list_elem_of_omap. exists t0. split; [done|].
      apply normalizeTuple_Some. split; [done|]. by rewrite Hu, Hr. }
    destruct (last (filter (λ t, tupleMapKey t = k) (omap (normalizeTuple o) D)))
      as [v|] eqn:Hl; [|by apply last_None in Hl].
    rewrite <-normalizeTuples_lookup in Hl.
    pose proof Hl as Hv. apply normalizeTuples_values in Hv as (Hov & Hkv & _).
    exists (k, v). split.
    + cbn. rewrite (TupleKey_eta t), (TupleKey_eta v).
      unfold tupleMapKey, k in Hkv. injection Hkv as -> ->. by rewrite Hov, Ho.
    + by apply elem_of_map_to_list.
Qed.

(** ** The effect of [SyncObjectTuples] on the store *)

Section SyncFacts.
Variable fails : Call → option string.

Lemma SyncObjectTuples_ok (o : string) (D : list TupleKey) (E : list string)
    (w w' : World) (n : nat * nat) :
  SyncObjectTuples fails o D E w = (Ok n, w') →
  fails (CRead o) = None ∧
  ∀ t, t ∈ store w' ↔
    (t ∈ store w ∧ (Object t = o → t ∈ (map_to_list (normalizeTuples o D)).*2
                                  ∨ Relation t ∈ E))
    ∨ t ∈ (map_to_list (normalizeTuples o D)).*2.
Proof.
  unfold SyncObjectTuples. rewrite ReadObjectTuples_bind.
  destruct (fails (CRead o)) eqn:Hf; [by intros [=]|].
  set (DL := (map_to_list (normalizeTuples o D)).*2).
  set (current := elements (filter (λ t, Object t = o) (store w))).
  set (writes := filter (λ t, t ∉ current) DL).
  set (deletes := filter (λ t, (t ∉ DL) ∧ (Relation t ∉ E)) current).
  intros Hrun. split; [done|].
  assert (Hst : store w' = (store w ∖ list_to_set deletes) ∪ list_to_set writes).
  { revert Hrun. fold writes deletes.
    destruct writes as [|x ws] eqn:Hw, deletes as [|y ds] eqn:Hd.
    1: { cbn. intros [= _ <-]. cbn. set_solver. }
    all: cbn -[WriteAndDeleteTuples]; rewrite M_bind_run; match goal with
        | |- context [WriteAndDeleteTuples fails ?a ?b ?c] =>
            destruct (WriteAndDeleteTuples fails a b c) as [[[]|e] w2] eqn:Hwd
        end;
        intros [= _ Hw2]; subst w'; apply WriteAndDeleteTuples_ok in Hwd; rewrite Hwd;
        cbn; set_solver. }
  assert (HDL : ∀ t, t ∈ DL → Object t = o).
  { intros t Ht. by apply desired_elem in Ht as [? _]. }
  intros t. rewrite Hst, elem_of_union, elem_of_difference, !elem_of_list_to_set.
  unfold writes, deletes, current.
  rewrite !list_elem_of_filter, !elem_of_read_set.
  specialize (HDL t).
  destruct (decide (t ∈ DL)), (decide (Relation t ∈ E)),
    (decide (t ∈ store w)), (decide (Object t = o)); naive_solver.
Qed.

(** Tuples of other objects are never touched by a sync. *)
Lemma SyncObjectTuples_frame (o : string) (D : list TupleKey) (E : list string)
    (w w' : World) r (t : TupleKey) :
  SyncObjectTuples fails o D E w = (r, w') → Object t ≠ o →
  t ∈ store w' ↔ t ∈ store w.
Proof.
  unfold SyncObjectTuples. rewrite ReadObjectTuples_bind.
  destruct (fails (CRead o)) eqn:Hf; [by intros [= _ <-]|].
  set (DL := (map_to_list (normalizeTuples o D)).*2).
  set (current := elements (filter (λ t, Object t = o) (store w))).
  set (writes := filter (λ t, t ∉ current) DL).
  set (deletes := filter (λ t, (t ∉ DL) ∧ (Relation t ∉ E)) current).
  intros Hrun Hot.
  assert (Hst : store w' = store w ∨
                store w' = (store w ∖ list_to_set deletes) ∪ list_to_set writes).
  { revert Hrun. fold writes deletes.
    destruct writes as [|x ws] eqn:Hw, deletes as [|y ds] eqn:Hd.
    1: { cbn. intros [= _ <-]. by left. }
    all: cbn -[WriteAndDeleteTuples]; rewrite M_bind_run; match goal with
        | |- context [WriteAndDeleteTuples fails ?a ?b ?c] =>
            destruct (WriteAndDeleteTuples fails a b c) as [[[]|e] w2] eqn:Hwd
        end;
        intros [= _ <-]; by apply WriteAndDeleteTuples_store in Hwd. }
  destruct Hst as [-> | ->]; [done|].
  rewrite elem_of_union, elem_of_difference, !elem_of_list_to_set.
  unfold writes, deletes, current.
  rewrite !list_elem_of_filter, !elem_of_read_set.
  assert (t ∉ DL) by (intros Ht; by apply desired_elem in Ht as [? _]).
  naive_solver.
Qed.

End SyncFacts.

(** ** Claims on the full-object sync *)

(** C1 (counterexample).  [committeeUpdateAccessHandler] syncs with
    "member" excluded; a desired member tuple on an empty store is written,
    so a tuple whose relation is excluded is not left as it was. *)
Lemma C1_excluded_relation_written :
  let r := SyncObjectTuples noFaults "committee:C"
             [mkTuple "user:alice" "member" "committee:C"] ["member"] emptyWorld in
  fst r = Ok (1, 0) ∧
  (mkTuple "user:alice" "member" "committee:C" ∉ store emptyWorld) ∧
  mkTuple "user:alice" "member" "committee:C" ∈ store (snd r).
Proof.
  split; [by vm_compute|]. split; [set_solver|].
  apply (bool_decide_unpack _). by vm_compute.
Qed.

(** C1 (amended).  After a successful sync of object [o] with desired
    tuples [D] and excluded relations [E]: a tuple [(u, r, o)] with
    [r ∉ E] is in the store iff [D] carries [(u, r)] for [o] (object [o] or
    empty); a tuple of [o] whose relation is in [E] is never deleted and is
    added only when [D] carries it; so when [D] carries no excluded
    relation, the excluded tuples of [o] are exactly those of the initial
    store. *)
Theorem C1_sync_correct_modulo_exclusions (fails : Call → option string)
    (o : string) (D : list TupleKey) (E : list string) (w w' : World) (n : nat * nat) :
  SyncObjectTuples fails o D E w = (Ok n, w') →
  (∀ u r, r ∉ E → (mkTuple u r o ∈ store w' ↔ admissible o D u r)) ∧
  (∀ t, Object t = o → Relation t ∈ E →
        (t ∈ store w' ↔ t ∈ store w ∨ admissible o D (User t) (Relation t))) ∧
  ((∀ u r, r ∈ E → ¬ admissible o D u r) →
   ∀ t, Object t = o → Relation t ∈ E → (t ∈ store w' ↔ t ∈ store w)).
Proof.
  intros Hrun. apply SyncObjectTuples_ok in Hrun as [_ Hst].
  split; [|split].
  - intros u r Hr. rewrite Hst, desired_elem. cbn. naive_solver.
  - intros t Ho Hr. rewrite Hst, desired_elem. naive_solver.
  - intros Hno t Ho Hr. rewrite Hst, desired_elem.
    specialize (Hno (User t) (Relation t) Hr). naive_solver.
Qed.

(** C4.  Sync is idempotent: right after a successful sync, the same sync
    returns [(0, 0)], leaves the store as it is and makes no write call
    (only its read). *)
Theorem C4_sync_idempotent (fails : Call → option string)
    (o : string) (D : list TupleKey) (E : list string) (w w1 : World) (n : nat * nat) :
  SyncObjectTuples fails o D E w = (Ok n, w1) →
  SyncObjectTuples fails o D E w1 = (Ok (0, 0), logCall w1 (CRead o)).
Proof.
  intros Hrun. apply SyncObjectTuples_ok in Hrun as [Hf Hst].
  unfold SyncObjectTuples. rewrite ReadObjectTuples_bind, Hf.
  set (DL := (map_to_list (normalizeTuples o D)).*2).
  set (current := elements (filter (λ t, Object t = o) (store w1))).
  set (writes := filter (λ t, t ∉ current) DL).
  set (deletes := filter (λ t, (t ∉ DL) ∧ (Relation t ∉ E)) current).
  assert (Hw : writes = []).
  { apply filter_none. intros t Ht. unfold current. rewrite elem_of_read_set.
    assert (Object t = o) by (by apply desired_elem in Ht as [? _]).
    specialize (Hst t). tauto. }
  assert (Hd : deletes = []).
  { apply filter_none. intros t Ht. unfold current in Ht.
    rewrite elem_of_read_set, Hst in Ht. naive_solver. }
  fold writes deletes. by rewrite Hw, Hd.
Qed.

(** C5.  Normalisation of the desired tuples: an empty object is set to
    the argument object, a tuple of another object is dropped (and a sync
    never touches tuples of other objects), and the tuples are
    de-duplicated by [(user, relation)], the last entry winning. *)
Theorem C5_normalize_desired (o : string) (D : list TupleKey) :
  (∀ k, normalizeTuples o D !! k =
          last (filter (λ t, tupleMapKey t = k) (omap (normalizeTuple o) D))) ∧
  (∀ t, Object t = "" → normalizeTuple o t = Some (mkTuple (User t) (Relation t) o)) ∧
  (∀ t, Object t = o → normalizeTuple o t = Some t) ∧
  (∀ t, Object t ≠ "" → Object t ≠ o → normalizeTuple o t = None) ∧
  (∀ D1 D2 t, Object t ≠ "" → Object t ≠ o →
     normalizeTuples o (D1 ++ t :: D2) = normalizeTuples o (D1 ++ D2)) ∧
  (∀ k t, normalizeTuples o D !! k = Some t → Object t = o) ∧
  (∀ fails E w r w' t, SyncObjectTuples fails o D E w = (r, w') → Object t ≠ o →
     (t ∈ store w' ↔ t ∈ store w)).
Proof.
  split; [apply normalizeTuples_lookup|].
  split; [intros t Ht; unfold normalizeTuple; by rewrite decide_True|].
  split.
  { intros [u r ob] Ht. cbn in Ht. subst ob. unfold normalizeTuple. cbn.
    case_decide as He; [by rewrite He|]. by rewrite decide_True. }
  assert (Hnone : ∀ t, Object t ≠ "" → Object t ≠ o → normalizeTuple o t = None).
  { intros t H1 H2. unfold normalizeTuple. by rewrite !decide_False. }
  split; [done|].
  split.
  { intros D1 D2 t H1 H2. unfold normalizeTuples.
    rewrite !foldl_app. cbn [foldl]. by rewrite Hnone. }
  split.
  { intros k t Hk. by apply normalizeTuples_values in Hk as [? _]. }
  intros fails E w r w' t. apply SyncObjectTuples_frame.
Qed.

(** ** Member put *)

Lemma rel_held (S : gset TupleKey) (u r o : string) :
  (∃ t, r = Relation t ∧ User t = u ∧ t ∈ S ∧ Object t = o) ↔ mkTuple u r o ∈ S.
Proof.
  split.
  - intros (t & -> & Hu & Hin & Ho). by rewrite (TupleKey_eta t), Hu, Ho in Hin.
  - intros Hin. by exists (mkTuple u r o).
Qed.

Lemma relationsOf_spec (S : gset TupleKey) (u o r : string) :
  r ∈ relationsOf S u o ↔ mkTuple u r o ∈ S.
Proof.
  unfold relationsOf. rewrite elem_of_map, <-rel_held.
  setoid_rewrite elem_of_filter. naive_solver.
Qed.

Section MemberFacts.
Variable fails : Call → option string.

Lemma guarded_write_store (ws ds : list TupleKey) (w w' : World) r :
  (match ws, ds with
   | [], [] => mret ()
   | _, _ => WriteAndDeleteTuples fails ws ds
   end) w = (r, w') →
  store w' = store w ∨ store w' = (store w ∖ list_to_set ds) ∪ list_to_set ws.
Proof.
  destruct ws, ds; [intros [= _ <-]; by left|..];
    apply WriteAndDeleteTuples_store.
Qed.

Lemma guarded_write_ok (ws ds : list TupleKey) (w w' : World) :
  (match ws, ds with
   | [], [] => mret ()
   | _, _ => WriteAndDeleteTuples fails ws ds
   end) w = (Ok (), w') →
  store w' = (store w ∖ list_to_set ds) ∪ list_to_set ws.
Proof.
  destruct ws, ds; [intros [= <-]; cbn; set_solver|..];
    apply WriteAndDeleteTuples_ok.
Qed.

Lemma computeMemberPutChanges_ok (o u : string) (data : MemberData.GenericMemberData)
    (w w' : World) (ws ds : list TupleKey) :
  computeMemberPutChanges fails o u data w = (Ok (ws, ds), w') →
  w' = logCall w (CRead o) ∧ fails (CRead o) = None ∧
  (∀ t, t ∈ ws ↔ ∃ r, t = mkTuple u r o ∧ r ∈ MemberData.Relations data
                      ∧ mkTuple u r o ∉ store w) ∧
  (∀ t, t ∈ ds ↔ t ∈ store w ∧ Object t = o ∧ User t = u
                 ∧ Relation t ∈ MemberData.MutuallyExclusiveWith data
                 ∧ Relation t ∉ MemberData.Relations data).
Proof.
  unfold computeMemberPutChanges. rewrite ReadObjectTuples_bind.
  destruct (fails (CRead o)) eqn:Hf; [by intros [=]|].
  cbn. intros [= <- <- <-]. split; [done|]. split; [done|]. split.
  - intros t. rewrite list_elem_of_fmap.
    setoid_rewrite list_elem_of_filter. setoid_rewrite elem_of_elements.
    setoid_rewrite elem_of_list_to_set. setoid_rewrite list_elem_of_fmap.
    setoid_rewrite list_elem_of_filter. setoid_rewrite elem_of_read_set.
    setoid_rewrite <-rel_held. naive_solver.
  - intros t. rewrite list_elem_of_fmap.
    setoid_rewrite list_elem_of_filter. setoid_rewrite elem_of_read_set.
    setoid_rewrite elem_of_list_to_set. split.
    + intros (t' & -> & (Hu & Hm & Hr) & Hin & Ho). cbn.
      rewrite <-!TupleKey_eta. naive_solver.
    + intros (Hin & Ho & Hu & Hm & Hr). exists t. rewrite <-!TupleKey_eta.
      naive_solver.
Qed.

Lemma genericMemberPutHandler_ok (hasReply : bool) (ot op : string)
    (data : MemberData.GenericMemberData) (w w' : World) :
  genericMemberPutHandler fails hasReply ot op data w = (Ok (), w') →
  validateMemberPut ot op data = None ∧
  ∃ ws ds w1,
    computeMemberPutChanges fails (buildObjectID ot (MemberData.UID data))
      (ObjectTypeUser ++ MemberData.Username data) data w = (Ok (ws, ds), w1) ∧
    store w' = (store w ∖ list_to_set ds) ∪ list_to_set ws.
Proof.
  unfold genericMemberPutHandler.
  destruct (validateMemberPut ot op data) eqn:Hv; [by intros [=]|].
  cbv zeta. rewrite M_bind_run. intros Hrun. split; [done|]. revert Hrun.
  match goal with
  | |- context [computeMemberPutChanges fails ?a ?b ?c w] =>
      destruct (computeMemberPutChanges fails a b c w) as [[[ws ds]|e] w1] eqn:Hc
  end; [|by intros [=]].
  rewrite M_bind_run.
  destruct (applyMemberPutChanges fails ws ds w1) as [[[]|e] w2] eqn:Ha; [|by intros [=]].
  intros Hr. apply sendReplyIfNeeded_store in Hr.
  apply guarded_write_ok in Ha.
  apply computeMemberPutChanges_ok in Hc as (-> & _).
  exists ws, ds, (logCall w (CRead (buildObjectID ot (MemberData.UID data)))).
  split; [done|]. by rewrite Hr, Ha.
Qed.

Lemma genericMemberPutHandler_store (hasReply : bool) (ot op : string)
    (data : MemberData.GenericMemberData) (w w' : World) r :
  genericMemberPutHandler fails hasReply ot op data w = (r, w') →
  store w' = store w ∨
  ∃ ws ds w1,
    computeMemberPutChanges fails (buildObjectID ot (MemberData.UID data))
      (ObjectTypeUser ++ MemberData.Username data) data w = (Ok (ws, ds), w1) ∧
    store w' = (store w ∖ list_to_set ds) ∪ list_to_set ws.
Proof.
  unfold genericMemberPutHandler.
  destruct (validateMemberPut ot op data) eqn:Hv; [intros [= _ <-]; by left|].
  cbv zeta. rewrite M_bind_run.
  match goal with
  | |- context [computeMemberPutChanges fails ?a ?b ?c w] =>
      destruct (computeMemberPutChanges fails a b c w) as [[[ws ds]|e] w1] eqn:Hc
  end.
  2:{ intros [= _ <-]. left. unfold computeMemberPutChanges in Hc.
      rewrite ReadObjectTuples_bind in Hc.
      destruct (fails _); by injection Hc as _ <-. }
  pose proof Hc as Hc'. apply computeMemberPutChanges_ok in Hc' as (-> & _).
  rewrite M_bind_run.
  destruct (applyMemberPutChanges fails ws ds _) as [[[]|e] w2] eqn:Ha.
  - intros Hr. apply sendReplyIfNeeded_store in Hr.
    apply guarded_write_store in Ha as [Ha|Ha].
    + left. by rewrite Hr, Ha.
    + right. eexists ws, ds, _. split; [reflexivity|]. by rewrite Hr, Ha.
  - intros [= _ <-]. apply guarded_write_store in Ha as [Ha|Ha].
    + left. by rewrite Ha.
    + right. eexists ws, ds, _. split; [reflexivity|]. by rewrite Ha.
Qed.

End MemberFacts.

Section MoreFacts.
Variable fails : Call → option string.

Lemma putMember_store (u o : string) (config : memberOperationConfig) (w w' : World) r :
  putMember fails u o config w = (r, w') →
  store w' = store w ∨
  ∃ ws ds, (∀ t, t ∈ ds → User t = u ∧ Relation t ∈ mutuallyExclusiveWith config) ∧
           store w' = (store w ∖ list_to_set ds) ∪ list_to_set ws.
Proof.
  unfold putMember. rewrite ReadObjectTuples_bind.
  destruct (fails (CRead o)); [intros [= _ <-]; by left|].
  cbv zeta. intros Hw. apply guarded_write_store in Hw as [Hw|Hw]; [by left|].
  right. eexists _, _. split; [|exact Hw].
  intros t. rewrite list_elem_of_fmap. setoid_rewrite list_elem_of_filter.
  setoid_rewrite elem_of_list_to_set.
  intros (t' & -> & (Hu & _ & Hm) & _). done.
Qed.

Lemma checkTuple_ok (o u r : string) (w : World) :
  fails (CRead o) = None →
  ∃ Wl Dl,
    checkTuple fails o u r w = (Ok (Wl, Dl), logCall w (CRead o)) ∧
    (∀ t, t ∈ Wl ↔ t = mkTuple u r o ∧ mkTuple u r o ∉ store w) ∧
    (∀ t, t ∈ Dl ↔ t ∈ store w ∧ Object t = o ∧ User t = u ∧ Relation t ≠ r).
Proof.
  intros Hf. unfold checkTuple. rewrite ReadObjectTuples_bind, Hf.
  eexists _, _. split; [reflexivity|]. split.
  - intros t. case_decide as Hex.
    + split; [by intros ?%elem_of_nil|]. intros [_ Hn]. exfalso. apply Hn.
      apply Exists_exists in Hex as (t' & Hin & Hu & Hr).
      apply elem_of_read_set in Hin as [Hin Ho].
      by rewrite (TupleKey_eta t'), Hu, Hr, Ho in Hin.
    + rewrite list_elem_of_singleton. split; [intros ->; split; [done|]|naive_solver].
      intros Hin. apply Hex, Exists_exists. exists (mkTuple u r o).
      split; [|done]. apply elem_of_read_set. done.
  - intros t. rewrite list_elem_of_fmap. setoid_rewrite list_elem_of_filter.
    setoid_rewrite elem_of_read_set. split.
    + intros (t' & -> & (Hu & Hr) & Hin & Ho). cbn.
      rewrite <-Hu, <-Ho, <-TupleKey_eta. done.
    + intros (Hin & Ho & Hu & Hr). exists t.
      rewrite <-Hu, <-Ho, <-TupleKey_eta. done.
Qed.

Lemma evaluatePolicies_app (ps1 ps2 : list Domain.Policy) (o : string) (w : World) :
  evaluatePolicies fails (ps1 ++ ps2) o w =
    match evaluatePolicies fails ps1 o w with
    | (Ok _, w1) => evaluatePolicies fails ps2 o w1
    | (Err e, w1) => (Err e, w1)
    end.
Proof.
  revert w. induction ps1 as [|p ps1 IH]; intros w; [done|].
  cbn [app evaluatePolicies]. rewrite !M_bind_run.
  destruct (EvaluatePolicy fails p o RelationMember w) as [[]w1]; [|done].
  apply IH.
Qed.

End MoreFacts.

(** C2.  Member put: the computed writes are the desired relations that the
    user does not hold yet on the object, the computed deletes are the
    user's tuples on the object whose relation is mutually exclusive and
    not desired; after a successful put, with [R_old] the relations the
    user held, the user holds [(R_old \ (mex \ R_new)) ∪ R_new], and
    [R_new] is not empty. *)
Theorem C2_member_put_transition (fails : Call → option string) :
  (∀ o u data w ws ds w1,
     computeMemberPutChanges fails o u data w = (Ok (ws, ds), w1) →
     (∀ t, t ∈ ws ↔ ∃ r, t = mkTuple u r o ∧ r ∈ MemberData.Relations data
                         ∧ mkTuple u r o ∉ store w) ∧
     (∀ t, t ∈ ds ↔ t ∈ store w ∧ Object t = o ∧ User t = u
                    ∧ Relation t ∈ MemberData.MutuallyExclusiveWith data
                    ∧ Relation t ∉ MemberData.Relations data)) ∧
  (∀ hasReply ot op data w w',
     genericMemberPutHandler fails hasReply ot op data w = (Ok (), w') →
     MemberData.Relations data ≠ [] ∧
     relationsOf (store w') (ObjectTypeUser ++ MemberData.Username data)
       (buildObjectID ot (MemberData.UID data)) =
     (relationsOf (store w) (ObjectTypeUser ++ MemberData.Username data)
        (buildObjectID ot (MemberData.UID data))
      ∖ (list_to_set (MemberData.MutuallyExclusiveWith data)
         ∖ list_to_set (MemberData.Relations data)))
     ∪ list_to_set (MemberData.Relations data)).
Proof.
  split.
  - intros o u data w ws ds w1 Hc.
    apply computeMemberPutChanges_ok in Hc as (_ & _ & Hws & Hds). done.
  - intros hasReply ot op data w w' Hrun.
    apply genericMemberPutHandler_ok in Hrun as (Hv & ws & ds & w1 & Hc & Hst).
    apply computeMemberPutChanges_ok in Hc as (_ & _ & Hws & Hds).
    split.
    { intros Hnil. unfold validateMemberPut in Hv.
      repeat case_decide; try discriminate. done. }
    apply set_eq. intros r.
    rewrite !relationsOf_spec, Hst, elem_of_union, elem_of_difference,
      !elem_of_list_to_set, Hws, Hds, elem_of_union, elem_of_difference,
      relationsOf_spec, elem_of_difference, !elem_of_list_to_set. cbn.
    split.
    + intros [[Hin Hnd]|(r' & Heq & Hr' & _)].
      * destruct (decide (r ∈ MemberData.Relations data)); [by right|].
        left. naive_solver.
      * right. by injection Heq as ->.
    + intros [[Hin Hnm]|Hr].
      * destruct (decide (r ∈ MemberData.Relations data)) as [Hr|Hr].
        -- left. split; [done|]. naive_solver.
        -- left. split; [done|]. naive_solver.
      * destruct (decide (mkTuple (ObjectTypeUser ++ MemberData.Username data) r
                     (buildObjectID ot (MemberData.UID data)) ∈ store w)).
        -- left. naive_solver.
        -- right. naive_solver.
Qed.

(** C10.  Frame of member put: every delete computed by the generic
    member put has the named user and a mutually exclusive relation; so a
    tuple of another user, or of a relation outside the mutual-exclusion
    list, survives any run of the generic handler or of [putMember],
    whatever the desired relations and whether the run succeeds. *)
Theorem C10_member_put_frame (fails : Call → option string) :
  (∀ o u data w ws ds w1,
     computeMemberPutChanges fails o u data w = (Ok (ws, ds), w1) →
     ∀ t, t ∈ ds → User t = u ∧ Relation t ∈ MemberData.MutuallyExclusiveWith data) ∧
  (∀ hasReply ot op data w w' r,
     genericMemberPutHandler fails hasReply ot op data w = (r, w') →
     ∀ t, t ∈ store w →
       User t ≠ ObjectTypeUser ++ MemberData.Username data
       ∨ Relation t ∉ MemberData.MutuallyExclusiveWith data →
       t ∈ store w') ∧
  (∀ u o config w w' r,
     putMember fails u o config w = (r, w') →
     ∀ t, t ∈ store w → User t ≠ u ∨ Relation t ∉ mutuallyExclusiveWith config →
       t ∈ store w').
Proof.
  split; [|split].
  - intros o u data w ws ds w1 Hc t Ht.
    apply computeMemberPutChanges_ok in Hc as (_ & _ & _ & Hds).
    apply Hds in Ht. naive_solver.
  - intros hasReply ot op data w w' r Hrun t Ht Hout.
    apply genericMemberPutHandler_store in Hrun as [->|(ws & ds & w1 & Hc & ->)]; [done|].
    apply computeMemberPutChanges_ok in Hc as (_ & _ & _ & Hds).
    apply elem_of_union_l, elem_of_difference. split; [done|].
    rewrite elem_of_list_to_set, Hds. naive_solver.
  - intros u o config w w' r Hrun t Ht Hout.
    apply putMember_store in Hrun as [->|(ws & ds & Hds & ->)]; [done|].
    apply elem_of_union_l, elem_of_difference. split; [done|].
    rewrite elem_of_list_to_set. intros Hd%Hds. naive_solver.
Qed.

(** C7.  Member remove: with no non-empty relation left, a successful
    remove leaves no tuple of the user on the object; otherwise the
    handler issues one call deleting exactly the tuples [(u, r, o)] for the
    non-empty listed relations with no write, and succeeds whether or not
    these tuples are in the store. *)
Theorem C7_member_remove (fails : Call → option string) :
  (∀ hasReply ot op data w w',
     filter (λ r, r ≠ "") (MemberData.Relations data) = [] →
     genericMemberRemoveHandler fails hasReply ot op data w = (Ok (), w') →
     ∀ t, User t = ObjectTypeUser ++ MemberData.Username data →
          Object t = buildObjectID ot (MemberData.UID data) →
          t ∉ store w') ∧
  (∀ hasReply ot op data w,
     validateMemberRemove ot op data = None →
     filter (λ r, r ≠ "") (MemberData.Relations data) ≠ [] →
     let dels := map (λ r, mkTuple (ObjectTypeUser ++ MemberData.Username data) r
                              (buildObjectID ot (MemberData.UID data)))
                   (filter (λ r, r ≠ "") (MemberData.Relations data)) in
     fails (CWrite [] dels) = None →
     (hasReply = false ∨ fails CRespond = None) →
     genericMemberRemoveHandler fails hasReply ot op data w =
       (Ok (), mkWorld (store w ∖ list_to_set dels)
                 (trace w ++ [CWrite [] dels] ++ if hasReply then [CRespond] else []))).
Proof.
  split.
  - intros hasReply ot op data w w' Hnil.
    unfold genericMemberRemoveHandler.
    destruct (validateMemberRemove ot op data); [by intros [=]|].
    cbv zeta. rewrite Hnil, M_bind_run.
    match goal with
    | |- context [DeleteTuplesByUserAndObject fails ?a ?b w] =>
        destruct (DeleteTuplesByUserAndObject fails a b w) as [[[]|e] w1] eqn:Hd
    end; [|by intros [=]].
    intros Hs%sendReplyIfNeeded_store. rewrite Hs.
    unfold DeleteTuplesByUserAndObject in Hd. rewrite ReadObjectTuples_bind in Hd.
    destruct (fails _); [discriminate|].
    apply WriteAndDeleteTuples_ok in Hd. rewrite Hd. cbn.
    intros t Hu Ho. rewrite elem_of_union, elem_of_difference, elem_of_list_to_set,
      list_elem_of_filter, elem_of_read_set. set_solver.
  - intros hasReply ot op data w Hv Hne dels Hw Hr.
    unfold genericMemberRemoveHandler. rewrite Hv. cbv zeta.
    fold dels.
    destruct (filter (λ r, r ≠ "") (MemberData.Relations data)) as [|r0 rs] eqn:Hf;
      [done|].
    subst dels. cbn [map] in Hw |- *. rewrite M_bind_run. cbn -[perform]. rewrite M_bind_run, perform_run, Hw. cbn.
    unfold sendReplyIfNeeded. destruct hasReply.
    + destruct Hr as [Hr|Hr]; [discriminate|]. rewrite perform_run, Hr.
      unfold logCall. cbn. rewrite union_empty_r_L. by rewrite <-!app_assoc.
    + cbn. by rewrite union_empty_r_L.
Qed.

(** C6 (counterexample).  A policy with an empty name is not expanded into
    its two tuples: the evaluation fails with the validation error before
    any read. *)
Lemma C6_invalid_policy_rejected :
  EvaluatePolicy noFaults (Domain.mkPolicy "" "allows_basic_profile" "basic_profile")
    "committee:C" RelationMember emptyWorld
  = (Err "policy name cannot be empty", emptyWorld).
Proof. vm_compute. reflexivity. Qed.

(** C6 (amended).  For a policy with non-empty name, value and relation, a
    non-empty object [o] and a member relation [m], when the two reads
    succeed: the evaluation reads [o], then the policy object [name:value],
    then makes at most one write-and-delete call (none when both lists are
    empty), whose writes are the level 1 tuple [(name:value, name, o)] and
    the level 2 tuple [(o#m, relation, name:value)] that are not in the
    store yet, and whose deletes are the tuples on [o] with user
    [name:value] and a relation other than [name], and the tuples on
    [name:value] with user [o#m] and a relation other than [relation].  A
    policy with an empty field, or an empty object, fails with an error and
    leaves the world as it was: no read, no write, no delete. *)
Theorem C6_policy_two_levels_valid (fails : Call → option string)
    (p : Domain.Policy) (o m : string) (w : World) :
  (Domain.Name p = "" ∨ Domain.Value p = "" ∨ Domain.Relation p = "" ∨ o = "" →
   ∃ e, EvaluatePolicy fails p o m w = (Err e, w)) ∧
  (Domain.Name p ≠ "" → Domain.Value p ≠ "" → Domain.Relation p ≠ "" → o ≠ "" →
   fails (CRead o) = None → fails (CRead (Domain.ObjectID p)) = None →
   ∃ Ws Ds,
    (∀ t, t ∈ Ws ↔
       (t = mkTuple (Domain.ObjectID p) (Domain.Name p) o ∧ t ∉ store w)
       ∨ (t = mkTuple (Domain.UserRelation p o m) (Domain.Relation p) (Domain.ObjectID p)
          ∧ t ∉ store w)) ∧
    (∀ t, t ∈ Ds ↔ t ∈ store w ∧
       ((Object t = o ∧ User t = Domain.ObjectID p ∧ Relation t ≠ Domain.Name p)
        ∨ (Object t = Domain.ObjectID p ∧ User t = Domain.UserRelation p o m
           ∧ Relation t ≠ Domain.Relation p))) ∧
    EvaluatePolicy fails p o m w =
      (match Ws, Ds with
       | [], [] => mret ()
       | _, _ => WriteAndDeleteTuples fails Ws Ds
       end) (logCall (logCall w (CRead o)) (CRead (Domain.ObjectID p)))).
Proof.
  split.
  - intros Hbad. unfold EvaluatePolicy, Domain.Validate.
    destruct (decide (Domain.Name p = "")); [eexists; reflexivity|].
    destruct (decide (Domain.Value p = "")); [eexists; reflexivity|].
    destruct (decide (Domain.Relation p = "")); [eexists; reflexivity|].
    destruct (decide (o = "")); [eexists; reflexivity|].
    exfalso. destruct Hbad as [H|[H|[H|H]]]; contradiction.
  - intros Hn Hval Hr Ho Hf1 Hf2.
    assert (Hv : Domain.Validate p = None).
    { unfold Domain.Validate. by rewrite !decide_False. }
    destruct (checkTuple_ok fails o (Domain.ObjectID p) (Domain.Name p) w Hf1)
      as (W1 & D1 & Hc1 & HW1 & HD1).
    destruct (checkTuple_ok fails (Domain.ObjectID p) (Domain.UserRelation p o m)
                (Domain.Relation p) (logCall w (CRead o)) Hf2)
      as (W2 & D2 & Hc2 & HW2 & HD2).
    cbn in HW2, HD2.
    exists (W1 ++ W2)%list, (D1 ++ D2)%list. split; [|split].
    + intros t. rewrite elem_of_app, HW1, HW2. naive_solver.
    + intros t. rewrite elem_of_app, HD1, HD2. naive_solver.
    + unfold EvaluatePolicy. rewrite Hv, decide_False by done. cbv zeta.
      rewrite M_bind_run, Hc1. cbn -[checkTuple WriteAndDeleteTuples].
      rewrite M_bind_run, Hc2. reflexivity.
Qed.

(** C9.  In the committee update handler the policies run only after the
    sync: a failing sync is returned unchanged, with the world it left (so
    no policy read or write follows); and when the sync succeeds, the
    error of the first failing policy is returned unchanged, with nothing
    after it. *)
Theorem C9_policies_after_sync (fails : Call → option string) (hasReply : bool)
    (c : Committee.committeeStub) :
  Committee.UID c ≠ "" →
  (∀ e w w1,
     SyncObjectTuples fails (Committee.ObjectType c ++ ":" ++ Committee.UID c)
       (buildCommitteeTuples c) [RelationMember] w = (Err e, w1) →
     committeeUpdateAccessHandler fails hasReply c w = (Err e, w1)) ∧
  (∀ n ps1 p ps2 e w w1 w2 w3,
     SyncObjectTuples fails (Committee.ObjectType c ++ ":" ++ Committee.UID c)
       (buildCommitteeTuples c) [RelationMember] w = (Ok n, w1) →
     Committee.Policies c = (ps1 ++ p :: ps2)%list →
     evaluatePolicies fails ps1 (Committee.ObjectType c ++ ":" ++ Committee.UID c) w1
       = (Ok (), w2) →
     EvaluatePolicy fails p (Committee.ObjectType c ++ ":" ++ Committee.UID c)
       RelationMember w2 = (Err e, w3) →
     committeeUpdateAccessHandler fails hasReply c w = (Err e, w3)).
Proof.
  intros Huid. split.
  - intros e w w1 Hs. unfold committeeUpdateAccessHandler.
    rewrite decide_False by done. cbv zeta. rewrite M_bind_run, Hs. done.
  - intros n ps1 p ps2 e w w1 w2 w3 Hs Hp H1 H2. unfold committeeUpdateAccessHandler.
    rewrite decide_False by done. cbv zeta. rewrite M_bind_run, Hs.
    rewrite M_bind_run, Hp, evaluatePolicies_app, H1.
    cbn [evaluatePolicies]. rewrite M_bind_run, H2. done.
Qed.

(** C3 (code bug).  A reference value that already has the [type:ID] form
    is not used as is: it is prefixed with the reference type like any
    other value, so [{"project": ["project:P"]}] on [committee:C] gives
    [(project:project:P, project, committee:C)] and not
    [(project:P, project, committee:C)]. *)
Theorem C3_typed_reference_prefixed :
  mkTuple "project:project:P" "project" "committee:C" ∈ buildStandardTuples typedRefStub ∧
  mkTuple "project:P" "project" "committee:C" ∉ buildStandardTuples typedRefStub.
Proof.
  split; apply (bool_decide_unpack _); vm_compute; reflexivity.
Qed.

(** ** Check requests *)

Lemma breakAt_Some (c : Ascii.ascii) (s l r : string) :
  breakAt c s = Some (l, r) →
  String.list_ascii_of_string s =
    (String.list_ascii_of_string l ++ c :: String.list_ascii_of_string r)%list.
Proof.
  revert l r. induction s as [|a s IH]; intros l r; cbn; [discriminate|].
  case_decide as Hac; [intros [= <- <-]; by subst|].
  destruct (breakAt c s) as [[l' r']|] eqn:E; [|discriminate].
  intros [= <- <-]. cbn. by rewrite (IH l' r').
Qed.

Lemma parseCheckLine_Some (line : string) (i : CheckItem) :
  parseCheckLine line = Some i → containsChar "#"%char line ∧ containsChar "@"%char line.
Proof.
  unfold parseCheckLine, containsChar.
  destruct (breakAt "#"%char line) as [[ob rest]|] eqn:E1; [|discriminate].
  destruct (breakAt "@"%char rest) as [[rl us]|] eqn:E2; [|discriminate].
  intros _. apply breakAt_Some in E1, E2. rewrite E1, E2.
  split; apply elem_of_app; right; apply elem_of_cons; [by left|].
  right. apply elem_of_app. right. apply elem_of_cons. by left.
Qed.

Lemma parseCheckLine_None (line : string) :
  ¬ containsChar "#"%char line ∨ ¬ containsChar "@"%char line →
  parseCheckLine line = None.
Proof.
  unfold parseCheckLine, containsChar. intros Hn.
  destruct (breakAt "#"%char line) as [[ob rest]|] eqn:E1; [|done].
  destruct (breakAt "@"%char rest) as [[rl us]|] eqn:E2; [|done].
  exfalso. apply breakAt_Some in E1, E2. rewrite E1, E2 in Hn.
  destruct Hn as [Hn|Hn]; apply Hn, elem_of_app; right; apply elem_of_cons;
    [by left|].
  right. apply elem_of_app. right. apply elem_of_cons. by left.
Qed.

Lemma parseCheckLines_ok (ls : list string) (items : list CheckItem) :
  parseCheckLines ls = Ok items →
  map Some items = map parseCheckLine (filter (λ l, l ≠ "") ls) ∧
  ∀ l, l ∈ ls → l ≠ "" → ∃ i, parseCheckLine l = Some i.
Proof.
  revert items. induction ls as [|l ls IH]; intros items; cbn [parseCheckLines].
  - intros [= <-]. split; [done|]. by intros ? ?%elem_of_nil.
  - case_decide as He.
    + intros H. destruct (IH items H) as [Hl Hall].
      rewrite filter_cons_False by naive_solver. split; [done|].
      intros l' [->|Hin]%elem_of_cons Hne; [done|]. by apply Hall.
    + destruct (parseCheckLine l) as [i|] eqn:Ep; [|discriminate].
      destruct (parseCheckLines ls) as [items'|e] eqn:Er; [|discriminate].
      intros [= <-]. destruct (IH items' eq_refl) as [Hl Hall].
      rewrite filter_cons_True by done. cbn. split; [by rewrite Ep, Hl|].
      intros l' [->|Hin]%elem_of_cons Hne; [by exists i|]. by apply Hall.
Qed.

Lemma parseCheckLines_err (ls : list string) (l : string) :
  l ∈ ls → l ≠ "" → parseCheckLine l = None → ∃ e, parseCheckLines ls = Err e.
Proof.
  induction ls as [|l0 ls IH]; [by intros ?%elem_of_nil|].
  intros [->|Hin]%elem_of_cons Hne Hp; cbn [parseCheckLines].
  - rewrite decide_False by done. rewrite Hp. eauto.
  - case_decide; [by apply IH|].
    destruct (parseCheckLine l0); [|eauto].
    destruct (IH Hin Hne Hp) as [e ->]. eauto.
Qed.

Lemma splitOn_newlines (n : nat) : splitOn LF (newlines n) = replicate (S n) "".
Proof.
  induction n as [|n IH]; [done|].
  cbn [newlines splitOn]. rewrite decide_True by done. by rewrite IH.
Qed.

Lemma parseCheckLines_blank (k : nat) : parseCheckLines (replicate k "") = Ok [].
Proof.
  induction k as [|k IH]; [done|].
  cbn [replicate parseCheckLines]. by rewrite decide_True.
Qed.

(** C8.  Check-request parsing: on success the items are the parses of
    the non-empty lines, in order (empty lines are skipped), and every
    non-empty line contains both '#' and '@'; a non-empty line lacking one
    of them fails the whole request; a payload of [n] line feeds ([n = 0]:
    the empty payload) gives no item and no error. *)
Theorem C8_check_parsing :
  (∀ payload items, ExtractCheckRequests payload = Ok items →
     map Some items = map parseCheckLine (filter (λ l, l ≠ "") (splitOn LF payload)) ∧
     ∀ l, l ∈ splitOn LF payload → l ≠ "" →
          containsChar "#"%char l ∧ containsChar "@"%char l) ∧
  (∀ payload l, l ∈ splitOn LF payload → l ≠ "" →
     ¬ containsChar "#"%char l ∨ ¬ containsChar "@"%char l →
     ∃ e, ExtractCheckRequests payload = Err e) ∧
  (∀ n, ExtractCheckRequests (newlines n) = Ok []).
Proof.
  split; [|split].
  - intros payload items H. apply parseCheckLines_ok in H as [Hm Hall].
    split; [done|]. intros l Hin Hne.
    destruct (Hall l Hin Hne) as [i Hi]. by eapply parseCheckLine_Some.
  - intros payload l Hin Hne Hmiss. eapply parseCheckLines_err; [done|done|].
    by apply parseCheckLine_None.
  - intros n. unfold ExtractCheckRequests. rewrite splitOn_newlines.
    apply parseCheckLines_blank.
Qed.

(** * Further properties of the handlers *)

Section HandlerFacts.
Variable fails : Call → option string.

Lemma nil_of_empty {A} (l : list A) : (∀ x, x ∉ l) → l = [].
Proof. destruct l as [|x l]; [done|]. intros H. exfalso. apply (H x). left. Qed.

Lemma bind_reply_ok {A} (m : M A) (b : bool) (w w' : World) :
  (m ≫= λ _, sendReplyIfNeeded fails b) w = (Ok (), w') →
  ∃ a w1, m w = (Ok a, w1) ∧ store w' = store w1.
Proof.
  rewrite M_bind_run. destruct (m w) as [[a|e] w1]; [|by intros [=]].
  intros Hr. exists a, w1. split; [done|]. by eapply sendReplyIfNeeded_store.
Qed.

Lemma bind_reply_store {A} (m : M A) (b : bool) (w w' : World) r :
  (m ≫= λ _, sendReplyIfNeeded fails b) w = (r, w') →
  ∃ r1 w1, m w = (r1, w1) ∧ store w' = store w1.
Proof.
  rewrite M_bind_run. destruct (m w) as [[a|e] w1].
  - intros Hr. exists (Ok a), w1. split; [done|]. by eapply sendReplyIfNeeded_store.
  - intros [= _ <-]. by exists (Err e), w1.
Qed.

Lemma normalizeTuples_nil (o : string) : normalizeTuples o [] = ∅.
Proof. done. Qed.

(** A sync with no desired tuple and no exclusion removes every tuple of
    the object. *)
Lemma SyncObjectTuples_clear (o : string) (w w' : World) (n : nat * nat) :
  SyncObjectTuples fails o [] [] w = (Ok n, w') →
  store w' = filter (λ t, Object t ≠ o) (store w).
Proof.
  intros [_ Hst]%SyncObjectTuples_ok. apply set_eq. intros t.
  rewrite Hst, elem_of_filter, normalizeTuples_nil, map_to_list_empty. cbn.
  rewrite elem_of_nil. set_solver.
Qed.

(** A sync never deletes a tuple whose relation is excluded. *)
Lemma SyncObjectTuples_keeps_excluded (o : string) (D : list TupleKey) (E : list string)
    (w w' : World) r (t : TupleKey) :
  SyncObjectTuples fails o D E w = (r, w') → t ∈ store w → Relation t ∈ E →
  t ∈ store w'.
Proof.
  unfold SyncObjectTuples. rewrite ReadObjectTuples_bind.
  destruct (fails (CRead o)) eqn:Hf; [by intros [= _ <-]|].
  set (DL := (map_to_list (normalizeTuples o D)).*2).
  set (current := elements (filter (λ t, Object t = o) (store w))).
  set (writes := filter (λ t, t ∉ current) DL).
  set (deletes := filter (λ t, (t ∉ DL) ∧ (Relation t ∉ E)) current).
  intros Hrun Ht HE.
  assert (Hst : store w' = store w ∨
                store w' = (store w ∖ list_to_set deletes) ∪ list_to_set writes).
  { revert Hrun. fold writes deletes.
    destruct writes as [|x ws] eqn:Hw, deletes as [|y ds] eqn:Hd.
    1: { cbn. intros [= _ <-]. by left. }
    all: cbn -[WriteAndDeleteTuples]; rewrite M_bind_run; match goal with
        | |- context [WriteAndDeleteTuples fails ?a ?b ?c] =>
            destruct (WriteAndDeleteTuples fails a b c) as [[[]|e] w2] eqn:Hwd
        end;
        intros [= _ <-]; by apply WriteAndDeleteTuples_store in Hwd. }
  destruct Hst as [-> | ->]; [done|].
  apply elem_of_union_l, elem_of_difference. split; [done|].
  rewrite elem_of_list_to_set. unfold deletes. rewrite list_elem_of_filter. naive_solver.
Qed.

(** Re-running a sync right after a successful one only reads. *)
Lemma SyncObjectTuples_rerun (o : string) (D : list TupleKey) (E : list string)
    (w w1 w2 : World) (n : nat * nat) :
  SyncObjectTuples fails o D E w = (Ok n, w1) → store w2 = store w1 →
  SyncObjectTuples fails o D E w2 = (Ok (0, 0), logCall w2 (CRead o)).
Proof.
  intros Hrun Hw2. apply SyncObjectTuples_ok in Hrun as [Hf Hst].
  rewrite <-Hw2 in Hst. clear Hw2 w1. rename w2 into w1.
  unfold SyncObjectTuples. rewrite ReadObjectTuples_bind, Hf.
  set (DL := (map_to_list (normalizeTuples o D)).*2).
  set (current := elements (filter (λ t, Object t = o) (store w1))).
  set (writes := filter (λ t, t ∉ current) DL).
  set (deletes := filter (λ t, (t ∉ DL) ∧ (Relation t ∉ E)) current).
  assert (Hw : writes = []).
  { apply filter_none. intros t Ht. unfold current. rewrite elem_of_read_set.
    assert (Object t = o) by (by apply desired_elem in Ht as [? _]).
    specialize (Hst t). tauto. }
  assert (Hd : deletes = []).
  { apply filter_none. intros t Ht. unfold current in Ht.
    rewrite elem_of_read_set, Hst in Ht. naive_solver. }
  fold writes deletes. by rewrite Hw, Hd.
Qed.


Lemma processDeleteAllAccessMessage_ok (hasReply : bool) (payload prefix : string)
    (w w' : World) :
  processDeleteAllAccessMessage fails hasReply payload prefix w = (Ok (), w') →
  store w' = filter (λ t, Object t ≠ prefix ++ payload) (store w).
Proof.
  unfold processDeleteAllAccessMessage. destruct payload as [|c rest]; [by intros [=]|].
  case_decide; [by intros [=]|]. cbv zeta.
  intros (n & w1 & Hs & ->)%bind_reply_ok. by eapply SyncObjectTuples_clear.
Qed.

End HandlerFacts.

(** X1. processDeleteAllAccessMessage rejects an empty payload and a payload starting with '{', '[' or a double quote without touching the store; a successful run removes exactly the tuples of the object prefix ++ payload. *)
Theorem X1_delete_all_access (fails : Call → option string) (hasReply : bool)
    (prefix : string) :
  (∀ w, processDeleteAllAccessMessage fails hasReply "" prefix w
        = (Err "empty deletion payload", w)) ∧
  (∀ c rest w, c = "{"%char ∨ c = "["%char ∨ c = DoubleQuote →
     processDeleteAllAccessMessage fails hasReply (String c rest) prefix w
     = (Err "unsupported deletion payload", w)) ∧
  (∀ payload w w',
     processDeleteAllAccessMessage fails hasReply payload prefix w = (Ok (), w') →
     ∀ t, t ∈ store w' ↔ t ∈ store w ∧ Object t ≠ prefix ++ payload).
Proof.
  split; [done|]. split.
  - intros c rest w Hc. unfold processDeleteAllAccessMessage. by rewrite decide_True.
  - intros payload w w' Hrun t. apply processDeleteAllAccessMessage_ok in Hrun.
    rewrite Hrun, elem_of_filter. tauto.
Qed.

(** X2. genericDeleteAccessHandler rejects a missing object type, a wrong operation and a missing uid with the world unchanged; a successful run removes exactly the tuples of buildObjectID objectType uid. *)
Theorem X2_generic_delete_access (fails : Call → option string) (hasReply : bool)
    (objectType operation uid : string) (w : World) :
  (objectType = "" →
     genericDeleteAccessHandler fails hasReply objectType operation uid w
     = (Err "object_type is required", w)) ∧
  (objectType ≠ "" → operation ≠ "delete_access" →
     genericDeleteAccessHandler fails hasReply objectType operation uid w
     = (Err "invalid operation for delete_access handler", w)) ∧
  (objectType ≠ "" → operation = "delete_access" → uid = "" →
     genericDeleteAccessHandler fails hasReply objectType operation uid w
     = (Err "uid is required", w)) ∧
  (∀ w', genericDeleteAccessHandler fails hasReply objectType operation uid w = (Ok (), w') →
     ∀ t, t ∈ store w' ↔ t ∈ store w ∧ Object t ≠ buildObjectID objectType uid).
Proof.
  unfold genericDeleteAccessHandler. split; [|split; [|split]].
  - intros H. by rewrite decide_True.
  - intros H1 H2. by rewrite decide_False, decide_True.
  - intros H1 H2 H3. rewrite decide_False, decide_False, decide_True; naive_solver.
  - intros w' Hrun t. revert Hrun.
    case_decide; [by intros [=]|]. case_decide; [by intros [=]|].
    case_decide; [by intros [=]|]. cbv zeta.
    intros (n & w1 & Hs & ->)%bind_reply_ok.
    apply SyncObjectTuples_clear in Hs. rewrite Hs, elem_of_filter. tauto.
Qed.

Lemma elem_of_concat_map {A B} (f : A → list B) (l : list A) (x : B) :
  x ∈ concat (map f l) ↔ ∃ y, y ∈ l ∧ x ∈ f y.
Proof.
  induction l as [|y l IH]; cbn.
  - split; [by intros ?%elem_of_nil|]. by intros (? & ?%elem_of_nil & _).
  - rewrite elem_of_app, IH. setoid_rewrite elem_of_cons. naive_solver.
Qed.

(** The desired tuples of a standard access update: all on the object;
    the public wildcard, one per reference value, one per principal. *)
Lemma buildStandardTuples_spec (obj : StandardAccess.standardAccessStub) (u r ob : string) :
  mkTuple u r ob ∈ buildStandardTuples obj ↔
  ob = StandardAccess.ObjectType obj ++ ":" ++ StandardAccess.UID obj ∧
  ((StandardAccess.Public obj = true ∧ u = UserWildcard ∧ r = RelationViewer)
   ∨ (∃ vs v, StandardAccess.References obj !! r = Some vs ∧ v ∈ vs ∧
        u = (if decide (r = RelationParent) then StandardAccess.ObjectType obj else r)
            ++ ":" ++ v)
   ∨ (∃ ps p, StandardAccess.Relations obj !! r = Some ps ∧ p ∈ ps ∧
        u = ObjectTypeUser ++ p)).
Proof.
  unfold buildStandardTuples. cbv zeta. rewrite !elem_of_app, !elem_of_concat_map.
  assert (Hpub : mkTuple u r ob ∈ (if StandardAccess.Public obj
      then [mkTuple UserWildcard RelationViewer
              (StandardAccess.ObjectType obj ++ ":" ++ StandardAccess.UID obj)] else [])
    ↔ StandardAccess.Public obj = true ∧ u = UserWildcard ∧ r = RelationViewer ∧
      ob = StandardAccess.ObjectType obj ++ ":" ++ StandardAccess.UID obj).
  { destruct (StandardAccess.Public obj).
    - rewrite list_elem_of_singleton. split; [intros [= -> -> ->]|intros (_ & -> & -> & ->)];
        done.
    - rewrite elem_of_nil. naive_solver. }
  rewrite Hpub. split.
  - intros [Hp|[([k vs] & Hkv & Hin)|([k ps] & Hkv & Hin)]].
    + naive_solver.
    + apply elem_of_map_to_list in Hkv. apply list_elem_of_fmap in Hin as (v & Heq & Hv).
      injection Heq as -> -> ->. split; [done|]. right; left. eauto.
    + apply elem_of_map_to_list in Hkv. apply list_elem_of_fmap in Hin as (p & Heq & Hp).
      injection Heq as -> -> ->. split; [done|]. right; right. eauto.
  - intros [-> [Hp|[(vs & v & Hk & Hv & ->)|(ps & p & Hk & Hp & ->)]]].
    + left. naive_solver.
    + right; left. exists (r, vs). split; [by apply elem_of_map_to_list|].
      apply list_elem_of_fmap. exists v. done.
    + right; right. exists (r, ps). split; [by apply elem_of_map_to_list|].
      apply list_elem_of_fmap. exists p. done.
Qed.

Lemma admissible_standard (obj : StandardAccess.standardAccessStub) (u r : string) :
  admissible (StandardAccess.ObjectType obj ++ ":" ++ StandardAccess.UID obj)
    (buildStandardTuples obj) u r ↔
  mkTuple u r (StandardAccess.ObjectType obj ++ ":" ++ StandardAccess.UID obj)
    ∈ buildStandardTuples obj.
Proof.
  unfold admissible. split.
  - intros ([u0 r0 ob0] & Hin & Hu & Hr & _). cbn in Hu, Hr. subst u0 r0.
    pose proof Hin as Hob. apply buildStandardTuples_spec in Hob as [-> _]. done.
  - intros Hin. exists (mkTuple u r (StandardAccess.ObjectType obj ++ ":"
                                    ++ StandardAccess.UID obj)). naive_solver.
Qed.

Section UpdateFacts.
Variable fails : Call → option string.

Lemma processStandardAccessUpdate_ok (hasReply : bool)
    (obj : StandardAccess.standardAccessStub) (E : list string) (w w' : World) :
  processStandardAccessUpdate fails hasReply obj E w = (Ok (), w') →
  StandardAccess.UID obj ≠ "" ∧
  ∃ n w1, SyncObjectTuples fails (StandardAccess.ObjectType obj ++ ":" ++ StandardAccess.UID obj)
            (buildStandardTuples obj) E w = (Ok n, w1) ∧ store w' = store w1.
Proof.
  unfold processStandardAccessUpdate. case_decide; [by intros [=]|]. cbv zeta.
  intros Hr. split; [done|]. by apply bind_reply_ok in Hr.
Qed.

(** After a successful update, a relation outside the exclusions is held
    exactly by the users the stub grants it to. *)
Lemma processStandardAccessUpdate_grants (hasReply : bool)
    (obj : StandardAccess.standardAccessStub) (E : list string) (w w' : World) :
  processStandardAccessUpdate fails hasReply obj E w = (Ok (), w') →
  ∀ u r, r ∉ E →
    (mkTuple u r (StandardAccess.ObjectType obj ++ ":" ++ StandardAccess.UID obj) ∈ store w' ↔
     (StandardAccess.Public obj = true ∧ u = UserWildcard ∧ r = RelationViewer)
     ∨ (∃ vs v, StandardAccess.References obj !! r = Some vs ∧ v ∈ vs ∧
          u = (if decide (r = RelationParent) then StandardAccess.ObjectType obj else r)
              ++ ":" ++ v)
     ∨ (∃ ps p, StandardAccess.Relations obj !! r = Some ps ∧ p ∈ ps ∧
          u = ObjectTypeUser ++ p)).
Proof.
  intros (_ & n & w1 & Hs & ->)%processStandardAccessUpdate_ok u r Hr.
  apply SyncObjectTuples_ok in Hs as [_ Hst].
  rewrite Hst, desired_elem. cbn. rewrite admissible_standard, buildStandardTuples_spec.
  split.
  - intros [[_ H]|(_ & _ & G)]; [|exact G].
    destruct (H eq_refl) as [(_ & _ & G)|HE]; [exact G|by destruct Hr].
  - intros G. right. split; [done|]. split; [done|exact G].
Qed.

End UpdateFacts.

(** X3. processStandardAccessUpdate fails on an empty UID; after a successful run a relation outside the excluded ones holds on the object exactly when the stub grants it, tuples of excluded relations are kept and other objects are untouched. *)
Theorem X3_standard_access_update (fails : Call → option string) (hasReply : bool)
    (obj : StandardAccess.standardAccessStub) (E : list string) :
  (StandardAccess.UID obj = "" → ∀ w,
     processStandardAccessUpdate fails hasReply obj E w
     = (Err (StandardAccess.ObjectType obj ++ " ID not found"), w)) ∧
  (∀ w w', processStandardAccessUpdate fails hasReply obj E w = (Ok (), w') →
     let o := StandardAccess.ObjectType obj ++ ":" ++ StandardAccess.UID obj in
     (∀ u r, r ∉ E →
       (mkTuple u r o ∈ store w' ↔
        (StandardAccess.Public obj = true ∧ u = UserWildcard ∧ r = RelationViewer)
        ∨ (∃ vs v, StandardAccess.References obj !! r = Some vs ∧ v ∈ vs ∧
             u = (if decide (r = RelationParent) then StandardAccess.ObjectType obj else r)
                 ++ ":" ++ v)
        ∨ (∃ ps p, StandardAccess.Relations obj !! r = Some ps ∧ p ∈ ps ∧
             u = ObjectTypeUser ++ p))) ∧
     (∀ t, t ∈ store w → Relation t ∈ E → t ∈ store w') ∧
     (∀ t, Object t ≠ o → (t ∈ store w' ↔ t ∈ store w))).
Proof.
  split.
  - intros Hu w. unfold processStandardAccessUpdate. by rewrite decide_True.
  - intros w w' Hrun o. split; [by eapply processStandardAccessUpdate_grants|].
    apply processStandardAccessUpdate_ok in Hrun as (_ & n & w1 & Hs & Hst).
    split.
    + intros t Ht HE. rewrite Hst. by eapply SyncObjectTuples_keeps_excluded.
    + intros t Ho. rewrite Hst. by eapply SyncObjectTuples_frame.
Qed.

(** X4. When the viewer relation is not excluded, a successful standard access update leaves the public wildcard viewer tuple exactly when the stub is public or lists the principal * under viewer. *)
Theorem X4_public_viewer_wildcard (fails : Call → option string) (hasReply : bool)
    (obj : StandardAccess.standardAccessStub) (E : list string) (w w' : World) :
  RelationViewer ∉ E →
  processStandardAccessUpdate fails hasReply obj E w = (Ok (), w') →
  mkTuple UserWildcard RelationViewer
    (StandardAccess.ObjectType obj ++ ":" ++ StandardAccess.UID obj) ∈ store w' ↔
  StandardAccess.Public obj = true ∨
  ∃ ps, StandardAccess.Relations obj !! RelationViewer = Some ps ∧ "*" ∈ ps.
Proof.
  intros HE Hrun. rewrite (processStandardAccessUpdate_grants _ _ _ _ _ _ Hrun _ _ HE).
  split.
  - intros [(Hp & _)|[(vs & v & _ & _ & Heq)|(ps & p & Hk & Hp & Heq)]].
    + by left.
    + exfalso. revert Heq. unfold RelationViewer, RelationParent, UserWildcard.
      rewrite decide_False by done. cbn. discriminate.
    + right. exists ps. split; [done|].
      revert Heq. unfold ObjectTypeUser, UserWildcard. cbn. by intros [= ->].
  - intros [Hp|(ps & Hk & Hp)].
    + left. done.
    + right; right. exists ps, "*". done.
Qed.

(** X5. Delivering the same standard access update again after a successful run only reads the object tuples and replies: no write or delete. *)
Theorem X5_standard_access_update_redelivered (fails : Call → option string) (hasReply : bool)
    (obj : StandardAccess.standardAccessStub) (E : list string) (w w1 : World) :
  processStandardAccessUpdate fails hasReply obj E w = (Ok (), w1) →
  processStandardAccessUpdate fails hasReply obj E w1 =
    sendReplyIfNeeded fails hasReply
      (logCall w1 (CRead (StandardAccess.ObjectType obj ++ ":" ++ StandardAccess.UID obj))).
Proof.
  intros Hrun. pose proof Hrun as (Hu & n & w2 & Hs & Hst)%processStandardAccessUpdate_ok.
  unfold processStandardAccessUpdate. rewrite decide_False by done. cbv zeta.
  rewrite M_bind_run. by erewrite SyncObjectTuples_rerun.
Qed.

(** X6. genericUpdateAccessHandler rejects a missing object type, a wrong operation and a missing UID with the world unchanged; a successful run keeps every tuple whose relation is in ExcludeRelations. *)
Theorem X6_generic_update_access (fails : Call → option string) (hasReply : bool)
    (objectType operation : string) (data : GenericAccess.GenericAccessData) (w : World) :
  (objectType = "" →
     genericUpdateAccessHandler fails hasReply objectType operation data w
     = (Err "object_type is required", w)) ∧
  (objectType ≠ "" → operation ≠ "update_access" →
     genericUpdateAccessHandler fails hasReply objectType operation data w
     = (Err "invalid operation for update_access handler", w)) ∧
  (objectType ≠ "" → operation = "update_access" → GenericAccess.UID data = "" →
     genericUpdateAccessHandler fails hasReply objectType operation data w
     = (Err (objectType ++ " ID not found"), w)) ∧
  (∀ w', genericUpdateAccessHandler fails hasReply objectType operation data w = (Ok (), w') →
     ∀ t, t ∈ store w → Relation t ∈ GenericAccess.ExcludeRelations data → t ∈ store w').
Proof.
  unfold genericUpdateAccessHandler. split; [|split; [|split]].
  - intros H. by rewrite decide_True.
  - intros H1 H2. by rewrite decide_False, decide_True.
  - intros H1 H2 H3. rewrite decide_False, decide_False by naive_solver.
    unfold processStandardAccessUpdate. by rewrite decide_True.
  - intros w'. case_decide; [by intros [=]|]. case_decide; [by intros [=]|].
    intros (_ & n & w1 & Hs & Hst)%processStandardAccessUpdate_ok t Ht HE.
    rewrite Hst. by eapply SyncObjectTuples_keeps_excluded.
Qed.


(** X7. The v2 committee update builds the same tuples as the v1 builder on a committee without policies, and with a non-empty UID it is a sync of the object with no excluded relation followed by the reply. *)
Theorem X7_committee_v2_update (fails : Call → option string) (hasReply : bool)
    (c : CommitteeV2.committeeStub) :
  let c1 : Committee.committeeStub := {|
    Committee.UID := CommitteeV2.UID c;
    Committee.ObjectType := CommitteeV2.ObjectType c;
    Committee.Public := CommitteeV2.Public c;
    Committee.Relations := CommitteeV2.Relations c;
    Committee.References := CommitteeV2.References c;
    Committee.Policies := [] |} in
  buildStandardTuples (CommitteeV2.toStandardAccessStub c) = buildCommitteeTuples c1 ∧
  ∀ w, CommitteeV2.UID c ≠ "" →
    CommitteeV2.committeeUpdateAccessHandler fails hasReply c w =
    (SyncObjectTuples fails (CommitteeV2.ObjectType c ++ ":" ++ CommitteeV2.UID c)
       (buildCommitteeTuples c1) [] ≫= λ _, sendReplyIfNeeded fails hasReply) w.
Proof.
  intros c1.
  assert (Hb : buildStandardTuples (CommitteeV2.toStandardAccessStub c) = buildCommitteeTuples c1).
  { unfold buildStandardTuples, buildCommitteeTuples. cbn. f_equal. f_equal.
    rewrite map_to_list_fmap.
    generalize (map_to_list (CommitteeV2.References c)) as l.
    induction l as [|[k v] l IH]; cbn; [done|]. by rewrite IH. }
  split; [done|]. intros w Hu. unfold CommitteeV2.committeeUpdateAccessHandler,
    processStandardAccessUpdate. cbn -[buildStandardTuples SyncObjectTuples sendReplyIfNeeded].
  rewrite decide_False by done. by rewrite Hb.
Qed.

Section PutFacts.
Variable fails : Call → option string.

(** After a successful [putMember]: the user's mutually exclusive tuples on
    the object other than the configured relation are gone, the configured
    tuple is present, nothing else changed. *)
Lemma putMember_ok (u o : string) (config : memberOperationConfig) (w w' : World) :
  putMember fails u o config w = (Ok (), w') →
  fails (CRead o) = None ∧
  ∀ t, t ∈ store w' ↔
    (t ∈ store w ∧ ¬ (User t = u ∧ Object t = o ∧ Relation t ≠ relation config
                      ∧ Relation t ∈ mutuallyExclusiveWith config))
    ∨ t = mkTuple u (relation config) o.
Proof.
  unfold putMember. rewrite ReadObjectTuples_bind.
  destruct (fails (CRead o)) eqn:Hf; [by intros [=]|]. cbv zeta.
  intros Hw%guarded_write_ok. split; [done|]. intros t. rewrite Hw.
  rewrite elem_of_union, elem_of_difference, !elem_of_list_to_set.
  rewrite list_elem_of_fmap. setoid_rewrite list_elem_of_filter.
  setoid_rewrite elem_of_read_set. setoid_rewrite elem_of_list_to_set.
  assert (Hdel : (∃ y, t = mkTuple (User y) (Relation y) (Object y) ∧
                   (User y = u ∧ Relation y ≠ relation config ∧
                    Relation y ∈ mutuallyExclusiveWith config) ∧ y ∈ store w ∧ Object y = o)
                 ↔ t ∈ store w ∧ User t = u ∧ Object t = o ∧ Relation t ≠ relation config
                   ∧ Relation t ∈ mutuallyExclusiveWith config).
  { split.
    - intros (y & -> & (Hu & Hr & Hm) & Hin & Ho). cbn. rewrite <-TupleKey_eta. done.
    - intros (Hin & Hu & Ho & Hr & Hm). exists t. rewrite <-TupleKey_eta. done. }
  rewrite Hdel. case_bool_decide as Hex.
  - apply Exists_exists in Hex as (t' & Hin & Hu & Hr).
    apply elem_of_read_set in Hin as [Hin Ho].
    rewrite (TupleKey_eta t'), Hu, Hr, Ho in Hin.
    rewrite elem_of_nil. split; [naive_solver|].
    intros [[Ht Hn]| ->]; [naive_solver|]. left. split; [done|]. cbn. naive_solver.
  - rewrite list_elem_of_singleton. naive_solver.
Qed.

Lemma processMemberOperation_put_ok (DeleteTuple : string → string → string → M unit)
    (hasReply : bool) (member : MemberOperation.memberOperationStub)
    (config : memberOperationConfig) (w w' : World) :
  processMemberOperation fails DeleteTuple hasReply member memberOperationPut config w
    = (Ok (), w') →
  ∃ w1, putMember fails (ObjectTypeUser ++ MemberOperation.Username member)
          (objectTypePrefix config ++ MemberOperation.ObjectUID member) config w = (Ok (), w1)
        ∧ store w' = store w1.
Proof.
  unfold processMemberOperation. case_decide; [by intros [=]|].
  case_decide; [by intros [=]|]. cbv zeta.
  intros ([] & w1 & Hp & Hst)%bind_reply_ok. eauto.
Qed.

End PutFacts.

(** X8. processMemberOperation rejects an empty username and then an empty object UID with the world unchanged; a successful put leaves the member with the configured relation plus the earlier relations outside mutuallyExclusiveWith, and touches no other user or object. *)
Theorem X8_member_operation (fails : Call → option string)
    (DeleteTuple : string → string → string → M unit) (hasReply : bool)
    (member : MemberOperation.memberOperationStub) (operation : memberOperation)
    (config : memberOperationConfig) :
  (MemberOperation.Username member = "" → ∀ w,
     processMemberOperation fails DeleteTuple hasReply member operation config w
     = (Err (objectTypeName config ++ " member username not found"), w)) ∧
  (MemberOperation.Username member ≠ "" → MemberOperation.ObjectUID member = "" → ∀ w,
     processMemberOperation fails DeleteTuple hasReply member operation config w
     = (Err (objectTypeName config ++ " UID not found"), w)) ∧
  (∀ w w', processMemberOperation fails DeleteTuple hasReply member memberOperationPut
             config w = (Ok (), w') →
     let u := ObjectTypeUser ++ MemberOperation.Username member in
     let o := objectTypePrefix config ++ MemberOperation.ObjectUID member in
     (∀ r, mkTuple u r o ∈ store w' ↔
           r = relation config
           ∨ (mkTuple u r o ∈ store w ∧ r ∉ mutuallyExclusiveWith config)) ∧
     (∀ t, User t ≠ u ∨ Object t ≠ o → (t ∈ store w' ↔ t ∈ store w))).
Proof.
  split; [|split].
  - intros Hu w. unfold processMemberOperation. by rewrite decide_True.
  - intros Hu Ho w. unfold processMemberOperation. by rewrite decide_False, decide_True.
  - intros w w' Hrun u o.
    apply processMemberOperation_put_ok in Hrun as (w1 & Hp & ->).
    apply putMember_ok in Hp as [_ Hst]. fold u o in Hst. split.
    + intros r. rewrite Hst. cbn.
      destruct (decide (r = relation config)); [naive_solver|]. naive_solver.
    + intros t Ht. rewrite Hst. naive_solver.
Qed.

(** X9. putMember run again after a successful run only reads the object tuples: no write or delete. *)
Theorem X9_put_member_redelivered (fails : Call → option string) (u o : string)
    (config : memberOperationConfig) (w w1 : World) :
  putMember fails u o config w = (Ok (), w1) →
  putMember fails u o config w1 = (Ok (), logCall w1 (CRead o)).
Proof.
  intros Hrun. apply putMember_ok in Hrun as [Hf Hst].
  unfold putMember. rewrite ReadObjectTuples_bind, Hf. cbv zeta.
  rewrite bool_decide_eq_true_2.
  2:{ apply Exists_exists. exists (mkTuple u (relation config) o).
      rewrite elem_of_read_set, Hst. naive_solver. }
  rewrite filter_none; [done|].
  intros t Ht (Hu & Hr & Hm%elem_of_list_to_set). rewrite elem_of_read_set, Hst in Ht.
  destruct Ht as [[[_ Hn]| ->] Ho]; [naive_solver|]. by apply Hr.
Qed.

Lemma computeMemberPutChanges_run (fails : Call → option string) (o u : string)
    (data : MemberData.GenericMemberData) (w : World) :
  fails (CRead o) = None →
  ∃ ws ds, computeMemberPutChanges fails o u data w = (Ok (ws, ds), logCall w (CRead o)).
Proof.
  intros Hf. unfold computeMemberPutChanges. rewrite ReadObjectTuples_bind, Hf.
  eexists _, _. reflexivity.
Qed.

(** X10. genericMemberPutHandler run again on the same message after a successful run only reads the object tuples and replies. *)
Theorem X10_member_put_redelivered (fails : Call → option string) (hasReply : bool)
    (ot op : string) (data : MemberData.GenericMemberData) (w w1 : World) :
  genericMemberPutHandler fails hasReply ot op data w = (Ok (), w1) →
  genericMemberPutHandler fails hasReply ot op data w1 =
    sendReplyIfNeeded fails hasReply
      (logCall w1 (CRead (buildObjectID ot (MemberData.UID data)))).
Proof.
  intros Hrun. apply genericMemberPutHandler_ok in Hrun as (Hv & ws & ds & w2 & Hc & Hst).
  apply computeMemberPutChanges_ok in Hc as (_ & Hf & Hws & Hds).
  set (o := buildObjectID ot (MemberData.UID data)) in *.
  set (u := ObjectTypeUser ++ MemberData.Username data) in *.
  destruct (computeMemberPutChanges_run fails o u data w1 Hf) as (ws' & ds' & Hc').
  pose proof Hc' as (_ & _ & Hws' & Hds')%computeMemberPutChanges_ok.
  assert (Hw0 : ws' = []).
  { apply nil_of_empty. intros t Ht. apply Hws' in Ht as (r & -> & Hr & Hn).
    apply Hn. rewrite Hst, elem_of_union, elem_of_difference, !elem_of_list_to_set.
    destruct (decide (mkTuple u r o ∈ store w)) as [Hin|Hin].
    - left. split; [done|]. rewrite Hds. cbn. naive_solver.
    - right. apply Hws. eauto. }
  assert (Hd0 : ds' = []).
  { apply nil_of_empty. intros t Ht. apply Hds' in Ht as (Hin & Ho & Hu & Hm & Hr).
    rewrite Hst, elem_of_union, elem_of_difference, !elem_of_list_to_set in Hin.
    destruct Hin as [[Hin Hnd]|Hin].
    - apply Hnd, Hds. done.
    - apply Hws in Hin as (r & -> & Hr' & _). done. }
  subst ws' ds'.
  unfold genericMemberPutHandler. rewrite Hv. cbv zeta. fold o u.
  rewrite M_bind_run, Hc'. done.
Qed.

Lemma append_hash_neq (s m : string) : s ≠ s ++ "#" ++ m.
Proof.
  induction s as [|a s IH]; cbn; [discriminate|]. intros [=]. by apply IH.
Qed.

Section PolicyFacts.
Variable fails : Call → option string.

Lemma EvaluatePolicy_ok (p : Domain.Policy) (o m : string) (w w' : World) :
  EvaluatePolicy fails p o m w = (Ok (), w') →
  Domain.Validate p = None ∧ o ≠ "" ∧
  fails (CRead o) = None ∧ fails (CRead (Domain.ObjectID p)) = None ∧
  ∃ Ws Ds,
    (∀ t, t ∈ Ws ↔
       (t = mkTuple (Domain.ObjectID p) (Domain.Name p) o ∧ t ∉ store w)
       ∨ (t = mkTuple (Domain.UserRelation p o m) (Domain.Relation p) (Domain.ObjectID p)
          ∧ t ∉ store w)) ∧
    (∀ t, t ∈ Ds ↔ t ∈ store w ∧
       ((Object t = o ∧ User t = Domain.ObjectID p ∧ Relation t ≠ Domain.Name p)
        ∨ (Object t = Domain.ObjectID p ∧ User t = Domain.UserRelation p o m
           ∧ Relation t ≠ Domain.Relation p))) ∧
    store w' = (store w ∖ list_to_set Ds) ∪ list_to_set Ws.
Proof.
  unfold EvaluatePolicy. destruct (Domain.Validate p) eqn:Hv; [by intros [=]|].
  case_decide as Ho; [by intros [=]|]. cbv zeta. rewrite M_bind_run.
  destruct (fails (CRead o)) eqn:Hf1.
  { unfold checkTuple. rewrite ReadObjectTuples_bind, Hf1. by intros [=]. }
  destruct (checkTuple_ok fails o (Domain.ObjectID p) (Domain.Name p) w Hf1)
    as (W1 & D1 & Hc1 & HW1 & HD1).
  rewrite Hc1. cbn -[checkTuple WriteAndDeleteTuples]. rewrite M_bind_run.
  destruct (fails (CRead (Domain.ObjectID p))) eqn:Hf2.
  { unfold checkTuple. rewrite ReadObjectTuples_bind, Hf2. by intros [=]. }
  destruct (checkTuple_ok fails (Domain.ObjectID p) (Domain.UserRelation p o m)
              (Domain.Relation p) (logCall w (CRead o)) Hf2)
    as (W2 & D2 & Hc2 & HW2 & HD2).
  rewrite Hc2. cbn -[WriteAndDeleteTuples]. cbn in HW2, HD2.
  intros Hw%guarded_write_ok. cbn in Hw.
  do 4 (split; [done|]). exists (W1 ++ W2)%list, (D1 ++ D2)%list. split; [|split].
  - intros t. rewrite elem_of_app, HW1, HW2. naive_solver.
  - intros t. rewrite elem_of_app, HD1, HD2. naive_solver.
  - exact Hw.
Qed.

End PolicyFacts.

Lemma EvaluatePolicy_post (fails : Call → option string) (p : Domain.Policy)
    (o m : string) (w w' : World) :
  EvaluatePolicy fails p o m w = (Ok (), w') →
  Domain.Validate p = None ∧ o ≠ "" ∧
  (∀ r, mkTuple (Domain.ObjectID p) r o ∈ store w' ↔ r = Domain.Name p) ∧
  (∀ r, mkTuple (Domain.UserRelation p o m) r (Domain.ObjectID p) ∈ store w'
        ↔ r = Domain.Relation p) ∧
  (∀ t, (User t ≠ Domain.ObjectID p ∨ Object t ≠ o) →
        (User t ≠ Domain.UserRelation p o m ∨ Object t ≠ Domain.ObjectID p) →
        (t ∈ store w' ↔ t ∈ store w)).
Proof.
  intros (Hv & Ho & _ & _ & Ws & Ds & HWs & HDs & Hst)%EvaluatePolicy_ok.
  assert (Hne : ¬ (Domain.ObjectID p = Domain.UserRelation p o m ∧ o = Domain.ObjectID p)).
  { intros [H1 H2]. unfold Domain.UserRelation in H1. rewrite <-H2 in H1.
    by apply (append_hash_neq o m). }
  split; [done|]. split; [done|]. split; [|split].
  - intros r. rewrite Hst, elem_of_union, elem_of_difference, !elem_of_list_to_set,
      HWs, HDs. cbn. split.
    + intros [[Hin Hn]|[[Heq _]|[Heq _]]]; [|by injection Heq|].
      * destruct (decide (r = Domain.Name p)); [done|]. exfalso. naive_solver.
      * exfalso. injection Heq as H1 H2 H3. apply Hne. split; congruence.
    + intros ->. destruct (decide (mkTuple (Domain.ObjectID p) (Domain.Name p) o ∈ store w)).
      * left. split; [done|]. intros [_ [(_ & _ & ?)|(H1 & H2 & _)]]; [done|].
        apply Hne. split; congruence.
      * right. left. done.
  - intros r. rewrite Hst, elem_of_union, elem_of_difference, !elem_of_list_to_set,
      HWs, HDs. cbn. split.
    + intros [[Hin Hn]|[[Heq _]|[Heq _]]]; [| |by injection Heq].
      * destruct (decide (r = Domain.Relation p)); [done|]. exfalso. naive_solver.
      * exfalso. injection Heq as H1 H2 H3. apply Hne. split; congruence.
    + intros ->. destruct (decide (mkTuple (Domain.UserRelation p o m) (Domain.Relation p)
                                     (Domain.ObjectID p) ∈ store w)).
      * left. split; [done|]. intros [_ [(H1 & H2 & _)|(_ & _ & ?)]]; [|done].
        apply Hne. split; congruence.
      * right. right. done.
  - intros t H1 H2. rewrite Hst, elem_of_union, elem_of_difference, !elem_of_list_to_set,
      HWs, HDs. split.
    + intros [[Hin _]|[[-> _]|[-> _]]]; [done| |]; exfalso; cbn in *; naive_solver.
    + intros Hin. left. split; [done|]. naive_solver.
Qed.

(** X11. After a successful EvaluatePolicy the policy is valid, the object is non-empty, the object carries exactly the policy name relation towards the policy object, the user relation carries exactly the policy relation on the policy object, and all other user and object pairs are unchanged. *)
Theorem X11_policy_evaluated (fails : Call → option string) (p : Domain.Policy)
    (o m : string) (w w' : World) :
  EvaluatePolicy fails p o m w = (Ok (), w') →
  Domain.Validate p = None ∧ o ≠ "" ∧
  (∀ r, mkTuple (Domain.ObjectID p) r o ∈ store w' ↔ r = Domain.Name p) ∧
  (∀ r, mkTuple (Domain.UserRelation p o m) r (Domain.ObjectID p) ∈ store w'
        ↔ r = Domain.Relation p) ∧
  (∀ t, (User t ≠ Domain.ObjectID p ∨ Object t ≠ o) →
        (User t ≠ Domain.UserRelation p o m ∨ Object t ≠ Domain.ObjectID p) →
        (t ∈ store w' ↔ t ∈ store w)).
Proof. apply EvaluatePolicy_post. Qed.

(** X12. EvaluatePolicy run again after a successful run only performs its two reads: no write or delete. *)
Theorem X12_policy_redelivered (fails : Call → option string) (p : Domain.Policy)
    (o m : string) (w w1 : World) :
  EvaluatePolicy fails p o m w = (Ok (), w1) →
  EvaluatePolicy fails p o m w1
  = (Ok (), logCall (logCall w1 (CRead o)) (CRead (Domain.ObjectID p))).
Proof.
  intros Hrun. pose proof Hrun as (Hv & Ho & Hf1 & Hf2 & _)%EvaluatePolicy_ok.
  apply EvaluatePolicy_post in Hrun as (_ & _ & H1 & H2 & _).
  destruct (checkTuple_ok fails o (Domain.ObjectID p) (Domain.Name p) w1 Hf1)
    as (W1 & D1 & Hc1 & HW1 & HD1).
  destruct (checkTuple_ok fails (Domain.ObjectID p) (Domain.UserRelation p o m)
              (Domain.Relation p) (logCall w1 (CRead o)) Hf2)
    as (W2 & D2 & Hc2 & HW2 & HD2).
  cbn in HW2, HD2.
  assert (W1 = []) as ->.
  { apply nil_of_empty. intros t [_ Hn]%HW1. apply Hn, H1. done. }
  assert (D1 = []) as ->.
  { apply nil_of_empty. intros t (Hin & Hob & Hu & Hr)%HD1. apply Hr, H1.
    by rewrite (TupleKey_eta t), Hob, Hu in Hin. }
  assert (W2 = []) as ->.
  { apply nil_of_empty. intros t [_ Hn]%HW2. apply Hn, H2. done. }
  assert (D2 = []) as ->.
  { apply nil_of_empty. intros t (Hin & Hob & Hu & Hr)%HD2. apply Hr, H2.
    by rewrite (TupleKey_eta t), Hob, Hu in Hin. }
  unfold EvaluatePolicy. rewrite Hv, decide_False by done. cbv zeta.
  rewrite M_bind_run, Hc1. cbn -[checkTuple]. rewrite M_bind_run, Hc2. done.
Qed.

Lemma evaluatePolicies_valid (fails : Call → option string) (ps : list Domain.Policy)
    (o : string) (w w' : World) :
  evaluatePolicies fails ps o w = (Ok (), w') → Forall (λ p, Domain.Validate p = None) ps.
Proof.
  revert w. induction ps as [|p ps IH]; intros w; [constructor|].
  cbn [evaluatePolicies]. rewrite M_bind_run.
  destruct (EvaluatePolicy fails p o RelationMember w) as [[[]|e] w1] eqn:He; [|by intros [=]].
  intros Hr. constructor; [by apply EvaluatePolicy_ok in He as [? _]|]. by eapply IH.
Qed.

(** X13. After a successful committee update the UID is non-empty, every policy validates, and the two tuples of the last policy are in the store. *)
Theorem X13_committee_update_policies (fails : Call → option string) (hasReply : bool)
    (c : Committee.committeeStub) (w w' : World) :
  committeeUpdateAccessHandler fails hasReply c w = (Ok (), w') →
  let o := Committee.ObjectType c ++ ":" ++ Committee.UID c in
  Committee.UID c ≠ "" ∧
  Forall (λ p, Domain.Validate p = None) (Committee.Policies c) ∧
  ∀ ps p, Committee.Policies c = (ps ++ [p])%list →
    mkTuple (Domain.ObjectID p) (Domain.Name p) o ∈ store w' ∧
    mkTuple (Domain.UserRelation p o RelationMember) (Domain.Relation p) (Domain.ObjectID p)
      ∈ store w'.
Proof.
  unfold committeeUpdateAccessHandler. case_decide as Hu; [by intros [=]|]. cbv zeta.
  rewrite M_bind_run.
  match goal with
  | |- context [SyncObjectTuples fails ?a ?b ?c w] =>
      destruct (SyncObjectTuples fails a b c w) as [[n|e] w1]; [|by intros [=]]
  end.
  rewrite M_bind_run.
  destruct (evaluatePolicies fails (Committee.Policies c) _ w1) as [[[]|e] w2] eqn:He;
    [|by intros [=]].
  intros Hr%sendReplyIfNeeded_store. split; [done|].
  split; [by eapply evaluatePolicies_valid|].
  intros ps p Hp. rewrite Hp, evaluatePolicies_app in He.
  destruct (evaluatePolicies fails ps _ w1) as [[[]|e] w3]; [|discriminate].
  cbn [evaluatePolicies] in He. rewrite M_bind_run in He.
  destruct (EvaluatePolicy fails p _ RelationMember w3) as [[[]|e] w4] eqn:Hp1;
    [|discriminate].
  injection He as <-. apply EvaluatePolicy_post in Hp1 as (_ & _ & H1 & H2 & _).
  rewrite Hr. split; [by apply H1|by apply H2].
Qed.

(** X14. When host and participant are distinct relations, a successful registrant put leaves the registrant with the host relation exactly when Host is set and with the participant relation exactly when it is not. *)
Theorem X14_registrant_put_host_xor_participant (fails : Call → option string)
    (DeleteTuple : string → string → string → M unit)
    (ObjectTypeMeeting RelationParticipant RelationHost : string) (hasReply : bool)
    (registrant : Meeting.registrantStub) (w w' : World) :
  RelationHost ≠ RelationParticipant →
  Meeting.meetingRegistrantPutHandler fails DeleteTuple ObjectTypeMeeting
    RelationParticipant RelationHost hasReply registrant w = (Ok (), w') →
  let u := ObjectTypeUser ++ Meeting.Username registrant in
  let o := ObjectTypeMeeting ++ Meeting.MeetingUID registrant in
  (mkTuple u RelationHost o ∈ store w' ↔ Meeting.Host registrant = true) ∧
  (mkTuple u RelationParticipant o ∈ store w' ↔ Meeting.Host registrant = false).
Proof.
  intros Hne. unfold Meeting.meetingRegistrantPutHandler. cbv zeta.
  intros (w1 & Hp & Hst)%processMemberOperation_put_ok. cbn in Hp.
  apply putMember_ok in Hp as [_ Hp]. rewrite Hst, !Hp. cbn.
  assert (HP : RelationParticipant ∈ [RelationParticipant; RelationHost]) by set_solver.
  assert (HH : RelationHost ∈ [RelationParticipant; RelationHost]) by set_solver.
  destruct (Meeting.Host registrant); cbn.
  - split.
    + split; [done|]. intros _. by right.
    + split; [|discriminate]. intros [[_ Hn]|Heq].
      * exfalso. apply Hn. split; [done|]. split; [done|]. split; [congruence|done].
      * exfalso. injection Heq. congruence.
  - split.
    + split; [|discriminate]. intros [[_ Hn]|Heq].
      * exfalso. apply Hn. split; [done|]. split; [done|]. split; [congruence|done].
      * exfalso. injection Heq. congruence.
    + split; [done|]. intros _. by right.
Qed.

Lemma processStandardAccessUpdate_keeps_excluded (fails : Call → option string)
    (hasReply : bool) (obj : StandardAccess.standardAccessStub) (E : list string)
    (w w' : World) r (t : TupleKey) :
  processStandardAccessUpdate fails hasReply obj E w = (r, w') →
  t ∈ store w → Relation t ∈ E → t ∈ store w'.
Proof.
  unfold processStandardAccessUpdate. case_decide; [by intros [= _ <-]|]. cbv zeta.
  intros (r1 & w1 & Hs & ->)%bind_reply_store. by eapply SyncObjectTuples_keeps_excluded.
Qed.

(** X15. meetingUpdateAccessHandler rejects an empty project ID with the world unchanged; any run, even a failing one, keeps every participant and host tuple. *)
Theorem X15_meeting_update_keeps_registrants (fails : Call → option string)
    (RelationProject RelationCommittee RelationOrganizer RelationParticipant
     RelationHost : string) (hasReply : bool) (meeting : Meeting.meetingStub) :
  (Meeting.ProjectUID meeting = "" → ∀ w,
     Meeting.meetingUpdateAccessHandler fails RelationProject RelationCommittee
       RelationOrganizer RelationParticipant RelationHost hasReply meeting w
     = (Err "meeting project ID not found", w)) ∧
  (∀ w w' r,
     Meeting.meetingUpdateAccessHandler fails RelationProject RelationCommittee
       RelationOrganizer RelationParticipant RelationHost hasReply meeting w = (r, w') →
     ∀ t, t ∈ store w → Relation t = RelationParticipant ∨ Relation t = RelationHost →
     t ∈ store w').
Proof.
  unfold Meeting.meetingUpdateAccessHandler. split.
  - intros Hp w. by rewrite decide_True.
  - intros w w' r. case_decide; [by intros [= _ <-]|].
    intros Hrun t Ht Hr. eapply processStandardAccessUpdate_keeps_excluded; [done|done|].
    set_solver.
Qed.

(** X16. processCommitteeMemberMessage rejects an empty username and then an empty committee UID with the world unchanged; a put whose read succeeds writes the member tuple only when it is not there yet and then replies. *)
Theorem X16_committee_member_put (fails : Call → option string)
    (DeleteTuple : string → string → string → M unit) (WriteTuples : list TupleKey → M unit)
    (ObjectTypeCommittee : string) (hasReply : bool)
    (member : CommitteeMember.committeeMemberStub) (operation : committeeMemberOperation) :
  let run := processCommitteeMemberMessage fails DeleteTuple WriteTuples ObjectTypeCommittee
               hasReply member in
  let u := ObjectTypeUser ++ CommitteeMember.Username member in
  let o := ObjectTypeCommittee ++ CommitteeMember.CommitteeUID member in
  (CommitteeMember.Username member = "" → ∀ w,
     run operation w = (Err "committee member username not found", w)) ∧
  (CommitteeMember.Username member ≠ "" → CommitteeMember.CommitteeUID member = "" → ∀ w,
     run operation w = (Err "committee UID not found", w)) ∧
  (CommitteeMember.Username member ≠ "" → CommitteeMember.CommitteeUID member ≠ "" →
   ∀ w, fails (CRead o) = None →
     (mkTuple u RelationMember o ∈ store w →
        run committeeMemberPut w = sendReplyIfNeeded fails hasReply (logCall w (CRead o))) ∧
     (mkTuple u RelationMember o ∉ store w →
        run committeeMemberPut w =
        (WriteTuples [mkTuple u RelationMember o] ≫= λ _, sendReplyIfNeeded fails hasReply)
          (logCall w (CRead o)))).
Proof.
  intros run u o. unfold run, processCommitteeMemberMessage. split; [|split].
  - intros Hu w. by rewrite decide_True.
  - intros Hu Hc w. by rewrite decide_False, decide_True.
  - intros Hu Hc w Hf. rewrite decide_False by done. rewrite decide_False by done.
    unfold handleCommitteeMemberOperation, putCommitteeMember. cbv zeta. fold u o.
    rewrite M_bind_run, ReadObjectTuples_bind, Hf. split.
    + intros Hin. rewrite bool_decide_eq_true_2; [done|].
      apply Exists_exists. exists (mkTuple u RelationMember o).
      rewrite elem_of_read_set. done.
    + intros Hn. rewrite bool_decide_eq_false_2; [done|].
      intros (t & Hin & Hu' & Hr)%Exists_exists. apply Hn.
      apply elem_of_read_set in Hin as [Hin Ho].
      by rewrite (TupleKey_eta t), Hu', Hr, Ho in Hin.
Qed.

(** X17. The generic member put and remove handlers reject invalid messages (missing object type, wrong operation, missing username or UID, and for put an empty relation list or an empty relation name) with the world unchanged. *)
Theorem X17_generic_member_rejected (fails : Call → option string) (hasReply : bool)
    (ot op : string) (data : MemberData.GenericMemberData) (w : World) :
  (ot = "" ∨ op ≠ "member_put" ∨ MemberData.Username data = "" ∨ MemberData.UID data = ""
   ∨ MemberData.Relations data = [] ∨ "" ∈ MemberData.Relations data →
   ∃ e, genericMemberPutHandler fails hasReply ot op data w = (Err e, w)) ∧
  (ot = "" ∨ op ≠ "member_remove" ∨ MemberData.Username data = "" ∨ MemberData.UID data = "" →
   ∃ e, genericMemberRemoveHandler fails hasReply ot op data w = (Err e, w)).
Proof.
  split.
  - intros Hbad. unfold genericMemberPutHandler.
    destruct (validateMemberPut ot op data) as [e|] eqn:Hv; [by exists e|].
    exfalso. unfold validateMemberPut in Hv.
    repeat case_decide; try discriminate.
    match goal with H : ¬ Exists _ _ |- _ => rename H into Hex end.
    destruct Hbad as [?|[?|[?|[?|[?|Hin]]]]]; try done.
    apply Hex, Exists_exists. eauto.
  - intros Hbad. unfold genericMemberRemoveHandler.
    destruct (validateMemberRemove ot op data) as [e|] eqn:Hv; [by exists e|].
    exfalso. unfold validateMemberRemove in Hv.
    repeat case_decide; try discriminate. naive_solver.
Qed.

(** * Witnesses *)

(** Discharge a hypothesis at a concrete input by evaluation. *)
Ltac concrete :=
  first [ reflexivity
        | apply (bool_decide_unpack _); vm_compute; reflexivity
        | vm_compute; reflexivity
        | vm_compute; discriminate ].

Lemma C1_sync_correct_modulo_exclusions_witness :
  (mkTuple "user:alice" "writer" "committee:C"
     ∈ store (snd (SyncObjectTuples noFaults "committee:C" syncDesired [RelationMember] syncWorld))
   ↔ admissible "committee:C" syncDesired "user:alice" "writer").
Proof.
  refine (proj1 (C1_sync_correct_modulo_exclusions noFaults "committee:C" syncDesired
    [RelationMember] syncWorld
    (snd (SyncObjectTuples noFaults "committee:C" syncDesired [RelationMember] syncWorld))
    (1, 1) _) "user:alice" "writer" _).
  all: concrete.
Defined.

Lemma C4_sync_idempotent_witness :
  SyncObjectTuples noFaults "committee:C" syncDesired [RelationMember]
    (snd (SyncObjectTuples noFaults "committee:C" syncDesired [RelationMember] syncWorld))
  = (Ok (0, 0),
     logCall (snd (SyncObjectTuples noFaults "committee:C" syncDesired [RelationMember]
                     syncWorld)) (CRead "committee:C")).
Proof.
  apply (C4_sync_idempotent noFaults "committee:C" syncDesired [RelationMember] syncWorld
    _ (1, 1)).
  vm_compute. reflexivity.
Defined.

Lemma C5_normalize_desired_witness :
  normalizeTuple "committee:C" (mkTuple "user:alice" "writer" "")
    = Some (mkTuple "user:alice" "writer" "committee:C") ∧
  normalizeTuple "committee:C" (mkTuple "user:dave" "viewer" "other:X") = None ∧
  (mkTuple "user:x" "viewer" "project:P"
     ∈ store (snd (SyncObjectTuples noFaults "committee:C" syncDesired [RelationMember] syncWorld))
   ↔ mkTuple "user:x" "viewer" "project:P" ∈ store syncWorld).
Proof.
  destruct (C5_normalize_desired "committee:C" syncDesired)
    as (_ & Hempty & _ & Hforeign & _ & _ & Hframe).
  split; [|split].
  - apply (Hempty (mkTuple "user:alice" "writer" "")). reflexivity.
  - apply (Hforeign (mkTuple "user:dave" "viewer" "other:X")); vm_compute; discriminate.
  - eapply (Hframe noFaults [RelationMember] syncWorld).
    + by rewrite <-surjective_pairing.
    + vm_compute. discriminate.
Defined.

Lemma C2_member_put_transition_witness :
  MemberData.Relations putData ≠ [] ∧
  relationsOf
    (store (snd (genericMemberPutHandler noFaults false "committee" "member_put" putData
                   memberWorld)))
    "user:alice" "committee:C"
  = (relationsOf (store memberWorld) "user:alice" "committee:C"
       ∖ (list_to_set ["auditor"; "writer"] ∖ list_to_set ["writer"]))
    ∪ list_to_set ["writer"].
Proof.
  apply (proj2 (C2_member_put_transition noFaults) false "committee" "member_put"
    putData memberWorld).
  vm_compute. reflexivity.
Defined.

Lemma C10_member_put_frame_witness :
  mkTuple "user:bob" "auditor" "committee:C"
    ∈ store (snd (genericMemberPutHandler noFaults false "committee" "member_put" putData
                    memberWorld)) ∧
  mkTuple "user:alice" "viewer" "committee:C"
    ∈ store (snd (putMember noFaults "user:alice" "committee:C" writerConfig memberWorld)).
Proof.
  destruct (C10_member_put_frame noFaults) as (_ & Hgen & Hput). split.
  - eapply (Hgen false "committee" "member_put" putData memberWorld).
    + apply surjective_pairing.
    + apply (bool_decide_unpack _). vm_compute. reflexivity.
    + left. vm_compute. discriminate.
  - eapply (Hput "user:alice" "committee:C" writerConfig memberWorld).
    + apply surjective_pairing.
    + apply (bool_decide_unpack _). vm_compute. reflexivity.
    + right. apply (bool_decide_unpack _). vm_compute. reflexivity.
Defined.

Lemma C7_member_remove_witness :
  (∀ t, User t = "user:alice" → Object t = "committee:C" →
        t ∉ store (snd (genericMemberRemoveHandler noFaults false "committee"
                          "member_remove" removeAllData memberWorld))) ∧
  ∃ w', genericMemberRemoveHandler noFaults true "committee" "member_remove" removeData
          memberWorld = (Ok (), w').
Proof.
  destruct (C7_member_remove noFaults) as [Hall Hsome]. split.
  - apply (Hall false "committee" "member_remove" removeAllData memberWorld).
    + reflexivity.
    + vm_compute. reflexivity.
  - eexists. apply (Hsome true "committee" "member_remove" removeData memberWorld).
    + reflexivity.
    + vm_compute. discriminate.
    + reflexivity.
    + right. reflexivity.
Defined.

Lemma C6_policy_two_levels_valid_witness :
  (∃ e, EvaluatePolicy noFaults (Domain.mkPolicy "visibility_policy" "" "basic_profile")
          "committee:C" RelationMember policyWorld = (Err e, policyWorld)) ∧
  ∃ Ws Ds,
    EvaluatePolicy noFaults visibilityPolicy "committee:C" RelationMember policyWorld =
      (match Ws, Ds with
       | [], [] => mret ()
       | _, _ => WriteAndDeleteTuples noFaults Ws Ds
       end) (logCall (logCall policyWorld (CRead "committee:C"))
                     (CRead "visibility_policy:basic_profile")).
Proof.
  split.
  - apply (proj1 (C6_policy_two_levels_valid noFaults
                    (Domain.mkPolicy "visibility_policy" "" "basic_profile")
                    "committee:C" RelationMember policyWorld)).
    do 2 right. left. reflexivity.
  - refine (match proj2 (C6_policy_two_levels_valid noFaults visibilityPolicy "committee:C"
                           RelationMember policyWorld) _ _ _ _ _ _ with
            | ex_intro _ Ws (ex_intro _ Ds (conj _ (conj _ Heq))) =>
                ex_intro _ Ws (ex_intro _ Ds Heq)
            end).
    all: concrete.
Defined.

Lemma C9_policies_after_sync_witness :
  committeeUpdateAccessHandler (failOn (CRead "committee:C") "read failed") false
    sampleCommittee emptyWorld
  = (Err "read failed", logCall emptyWorld (CRead "committee:C")) ∧
  committeeUpdateAccessHandler
    (failOn (CRead "visibility_policy:basic_profile") "policy read failed") false
    sampleCommittee emptyWorld
  = (Err "policy read failed",
     snd (EvaluatePolicy
            (failOn (CRead "visibility_policy:basic_profile") "policy read failed")
            visibilityPolicy "committee:C" RelationMember
            (snd (SyncObjectTuples
                    (failOn (CRead "visibility_policy:basic_profile") "policy read failed")
                    "committee:C" (buildCommitteeTuples sampleCommittee)
                    [RelationMember] emptyWorld)))).
Proof.
  split.
  - refine (proj1 (C9_policies_after_sync (failOn (CRead "committee:C") "read failed")
                     false sampleCommittee _) _ emptyWorld _ _).
    all: concrete.
  - refine (proj2 (C9_policies_after_sync
                     (failOn (CRead "visibility_policy:basic_profile") "policy read failed")
                     false sampleCommittee _)
              (2, 0) [] visibilityPolicy [] _ emptyWorld
              (snd (SyncObjectTuples
                      (failOn (CRead "visibility_policy:basic_profile") "policy read failed")
                      "committee:C" (buildCommitteeTuples sampleCommittee)
                      [RelationMember] emptyWorld))
              (snd (SyncObjectTuples
                      (failOn (CRead "visibility_policy:basic_profile") "policy read failed")
                      "committee:C" (buildCommitteeTuples sampleCommittee)
                      [RelationMember] emptyWorld))
              _ _ _ _ _).
    all: concrete.
Defined.

Lemma C8_check_parsing_witness :
  (∃ e, ExtractCheckRequests badPayload = Err e) ∧
  ExtractCheckRequests (newlines 3) = Ok [].
Proof.
  destruct C8_check_parsing as (_ & Hbad & Hblank). split.
  - apply (Hbad badPayload "committee:C#viewer").
    + apply (bool_decide_unpack _). vm_compute. reflexivity.
    + vm_compute. discriminate.
    + right. unfold containsChar. apply (bool_decide_unpack _). vm_compute. reflexivity.
  - apply Hblank.
Defined.

Lemma X1_delete_all_access_witness :
  processDeleteAllAccessMessage noFaults false (String "{"%char "x") "committee:" syncWorld
    = (Err "unsupported deletion payload", syncWorld) ∧
  (mkTuple "user:x" "viewer" "project:P"
     ∈ store (snd (processDeleteAllAccessMessage noFaults true "C" "committee:" syncWorld))
   ↔ mkTuple "user:x" "viewer" "project:P" ∈ store syncWorld ∧
     "project:P" ≠ "committee:" ++ "C").
Proof.
  destruct (X1_delete_all_access noFaults false "committee:") as (_ & Hbad & _).
  destruct (X1_delete_all_access noFaults true "committee:") as (_ & _ & Hok).
  split.
  - apply Hbad. left. reflexivity.
  - apply (Hok "C" syncWorld). concrete.
Defined.

Lemma X2_generic_delete_access_witness :
  genericDeleteAccessHandler noFaults false "committee" "delete_access" "" syncWorld
    = (Err "uid is required", syncWorld) ∧
  (mkTuple "user:x" "viewer" "project:P"
     ∈ store (snd (genericDeleteAccessHandler noFaults true "committee" "delete_access" "C"
                     syncWorld))
   ↔ mkTuple "user:x" "viewer" "project:P" ∈ store syncWorld ∧
     "project:P" ≠ buildObjectID "committee" "C").
Proof.
  destruct (X2_generic_delete_access noFaults false "committee" "delete_access" ""
              syncWorld) as (_ & _ & Huid & _).
  destruct (X2_generic_delete_access noFaults true "committee" "delete_access" "C"
              syncWorld) as (_ & _ & _ & Hok).
  split.
  - apply Huid; concrete.
  - apply Hok. concrete.
Defined.

Lemma X3_standard_access_update_witness :
  mkTuple "user:bob" "member" "committee:C"
    ∈ store (snd (processStandardAccessUpdate noFaults false publicStub [RelationMember]
                    syncWorld)) ∧
  (mkTuple "user:x" "viewer" "project:P"
     ∈ store (snd (processStandardAccessUpdate noFaults false publicStub [RelationMember]
                     syncWorld))
   ↔ mkTuple "user:x" "viewer" "project:P" ∈ store syncWorld).
Proof.
  destruct (X3_standard_access_update noFaults false publicStub [RelationMember])
    as [_ Hok].
  destruct (Hok syncWorld
              (snd (processStandardAccessUpdate noFaults false publicStub [RelationMember]
                      syncWorld)))
    as (_ & Hkeep & Hframe); [concrete|].
  split.
  - apply Hkeep; concrete.
  - apply Hframe. concrete.
Defined.

Lemma X4_public_viewer_wildcard_witness :
  mkTuple UserWildcard RelationViewer "committee:C"
    ∈ store (snd (processStandardAccessUpdate noFaults false publicStub [] emptyWorld)).
Proof.
  apply (proj2 (X4_public_viewer_wildcard noFaults false publicStub [] emptyWorld
                  (snd (processStandardAccessUpdate noFaults false publicStub []
                          emptyWorld)) ltac:(concrete) ltac:(concrete))).
  left. reflexivity.
Defined.

Lemma X5_standard_access_update_redelivered_witness :
  processStandardAccessUpdate noFaults true publicStub []
    (snd (processStandardAccessUpdate noFaults true publicStub [] syncWorld))
  = sendReplyIfNeeded noFaults true
      (logCall (snd (processStandardAccessUpdate noFaults true publicStub [] syncWorld))
         (CRead "committee:C")).
Proof.
  apply (X5_standard_access_update_redelivered noFaults true publicStub [] syncWorld).
  concrete.
Defined.

Lemma X6_generic_update_access_witness :
  genericUpdateAccessHandler noFaults false "committee" "delete_access" genericAccessData
    syncWorld = (Err "invalid operation for update_access handler", syncWorld) ∧
  mkTuple "user:bob" "member" "committee:C"
    ∈ store (snd (genericUpdateAccessHandler noFaults false "committee" "update_access"
                    genericAccessData syncWorld)).
Proof.
  destruct (X6_generic_update_access noFaults false "committee" "delete_access"
              genericAccessData syncWorld) as (_ & Hop & _).
  destruct (X6_generic_update_access noFaults false "committee" "update_access"
              genericAccessData syncWorld) as (_ & _ & _ & Hkeep).
  split.
  - apply Hop; concrete.
  - apply (Hkeep (snd (genericUpdateAccessHandler noFaults false "committee"
                         "update_access" genericAccessData syncWorld))); concrete.
Defined.

Lemma X7_committee_v2_update_witness :
  CommitteeV2.committeeUpdateAccessHandler noFaults true committeeV2Stub syncWorld =
  (SyncObjectTuples noFaults "committee:C"
     (buildCommitteeTuples {|
        Committee.UID := "C";
        Committee.ObjectType := "committee";
        Committee.Public := true;
        Committee.Relations := ∅;
        Committee.References := {[ "project" := "P" ]};
        Committee.Policies := [] |}) []
   ≫= λ _, sendReplyIfNeeded noFaults true) syncWorld.
Proof.
  apply (proj2 (X7_committee_v2_update noFaults true committeeV2Stub) syncWorld).
  concrete.
Defined.

Lemma X8_member_operation_witness :
  mkTuple "user:alice" "auditor" "committee:C"
    ∈ store (snd (processMemberOperation noFaults deleteTupleFixture false memberStub
                    memberOperationPut writerConfig memberWorld))
  ↔ "auditor" = relation writerConfig
    ∨ (mkTuple "user:alice" "auditor" "committee:C" ∈ store memberWorld ∧
       "auditor" ∉ mutuallyExclusiveWith writerConfig).
Proof.
  destruct (X8_member_operation noFaults deleteTupleFixture false memberStub
              memberOperationPut writerConfig) as (_ & _ & Hput).
  apply (proj1 (Hput memberWorld
                  (snd (processMemberOperation noFaults deleteTupleFixture false memberStub
                          memberOperationPut writerConfig memberWorld))
                  ltac:(concrete))).
Defined.

Lemma X9_put_member_redelivered_witness :
  putMember noFaults "user:alice" "committee:C" writerConfig
    (snd (putMember noFaults "user:alice" "committee:C" writerConfig memberWorld))
  = (Ok (), logCall (snd (putMember noFaults "user:alice" "committee:C" writerConfig
                            memberWorld)) (CRead "committee:C")).
Proof.
  apply (X9_put_member_redelivered noFaults "user:alice" "committee:C" writerConfig
           memberWorld).
  concrete.
Defined.

Lemma X10_member_put_redelivered_witness :
  genericMemberPutHandler noFaults true "committee" "member_put" putData
    (snd (genericMemberPutHandler noFaults true "committee" "member_put" putData
            memberWorld))
  = sendReplyIfNeeded noFaults true
      (logCall (snd (genericMemberPutHandler noFaults true "committee" "member_put" putData
                       memberWorld)) (CRead (buildObjectID "committee" "C"))).
Proof.
  apply (X10_member_put_redelivered noFaults true "committee" "member_put" putData
           memberWorld).
  concrete.
Defined.

Lemma X11_policy_evaluated_witness :
  mkTuple (Domain.ObjectID visibilityPolicy) (Domain.Name visibilityPolicy) "committee:C"
    ∈ store (snd (EvaluatePolicy noFaults visibilityPolicy "committee:C" RelationMember
                    policyWorld)) ∧
  mkTuple (Domain.ObjectID visibilityPolicy) "old_policy" "committee:C"
    ∉ store (snd (EvaluatePolicy noFaults visibilityPolicy "committee:C" RelationMember
                    policyWorld)).
Proof.
  destruct (X11_policy_evaluated noFaults visibilityPolicy "committee:C" RelationMember
              policyWorld
              (snd (EvaluatePolicy noFaults visibilityPolicy "committee:C" RelationMember
                      policyWorld))) as (_ & _ & Hname & _); [concrete|].
  split.
  - apply Hname. reflexivity.
  - intros H. apply Hname in H. vm_compute in H. discriminate.
Defined.

Lemma X12_policy_redelivered_witness :
  EvaluatePolicy noFaults visibilityPolicy "committee:C" RelationMember
    (snd (EvaluatePolicy noFaults visibilityPolicy "committee:C" RelationMember policyWorld))
  = (Ok (), logCall (logCall (snd (EvaluatePolicy noFaults visibilityPolicy "committee:C"
                                     RelationMember policyWorld)) (CRead "committee:C"))
              (CRead (Domain.ObjectID visibilityPolicy))).
Proof.
  apply (X12_policy_redelivered noFaults visibilityPolicy "committee:C" RelationMember
           policyWorld).
  concrete.
Defined.

Lemma X13_committee_update_policies_witness :
  mkTuple (Domain.ObjectID visibilityPolicy) (Domain.Name visibilityPolicy) "committee:C"
    ∈ store (snd (committeeUpdateAccessHandler noFaults false sampleCommittee emptyWorld)) ∧
  mkTuple (Domain.UserRelation visibilityPolicy "committee:C" RelationMember)
    (Domain.Relation visibilityPolicy) (Domain.ObjectID visibilityPolicy)
    ∈ store (snd (committeeUpdateAccessHandler noFaults false sampleCommittee emptyWorld)).
Proof.
  destruct (X13_committee_update_policies noFaults false sampleCommittee emptyWorld
              (snd (committeeUpdateAccessHandler noFaults false sampleCommittee emptyWorld)))
    as (_ & _ & Hlast); [concrete|].
  apply (Hlast [] visibilityPolicy). reflexivity.
Defined.

Lemma X14_registrant_put_host_xor_participant_witness :
  mkTuple "user:alice" "host" "meeting:M"
    ∈ store (snd (Meeting.meetingRegistrantPutHandler noFaults deleteTupleFixture "meeting:"
                    "participant" "host" false hostRegistrant meetingWorld)) ∧
  mkTuple "user:alice" "participant" "meeting:M"
    ∉ store (snd (Meeting.meetingRegistrantPutHandler noFaults deleteTupleFixture "meeting:"
                    "participant" "host" false hostRegistrant meetingWorld)).
Proof.
  destruct (X14_registrant_put_host_xor_participant noFaults deleteTupleFixture "meeting:"
              "participant" "host" false hostRegistrant meetingWorld
              (snd (Meeting.meetingRegistrantPutHandler noFaults deleteTupleFixture
                      "meeting:" "participant" "host" false hostRegistrant meetingWorld))
              ltac:(concrete) ltac:(concrete)) as [Hhost Hpart].
  split.
  - apply Hhost. reflexivity.
  - intros H. apply Hpart in H. discriminate.
Defined.

Lemma X15_meeting_update_keeps_registrants_witness :
  mkTuple "user:alice" "participant" "meeting:M"
    ∈ store (snd (Meeting.meetingUpdateAccessHandler noFaults "project" "committee"
                    "organizer" "participant" "host" false sampleMeeting meetingWorld)).
Proof.
  destruct (X15_meeting_update_keeps_registrants noFaults "project" "committee" "organizer"
              "participant" "host" false sampleMeeting) as [_ Hkeep].
  apply (Hkeep meetingWorld _
           (fst (Meeting.meetingUpdateAccessHandler noFaults "project" "committee"
                   "organizer" "participant" "host" false sampleMeeting meetingWorld))).
  - apply surjective_pairing.
  - concrete.
  - left. reflexivity.
Defined.

Lemma X16_committee_member_put_witness :
  processCommitteeMemberMessage noFaults deleteTupleFixture writeTuplesFixture "committee:"
    false committeeMemberFixture committeeMemberPut emptyWorld =
  (writeTuplesFixture [mkTuple "user:alice" RelationMember "committee:C"]
   ≫= λ _, sendReplyIfNeeded noFaults false) (logCall emptyWorld (CRead "committee:C")).
Proof.
  destruct (X16_committee_member_put noFaults deleteTupleFixture writeTuplesFixture
              "committee:" false committeeMemberFixture committeeMemberPut)
    as (_ & _ & Hput).
  apply (proj2 (Hput ltac:(concrete) ltac:(concrete) emptyWorld ltac:(concrete))).
  concrete.
Defined.

Lemma X17_generic_member_rejected_witness :
  (∃ e, genericMemberPutHandler noFaults false "committee" "member_put" removeData
          memberWorld = (Err e, memberWorld)) ∧
  (∃ e, genericMemberRemoveHandler noFaults false "committee" "member_put" removeData
          memberWorld = (Err e, memberWorld)).
Proof.
  destruct (X17_generic_member_rejected noFaults false "committee" "member_put" removeData
              memberWorld) as [Hput Hremove].
  split.
  - apply Hput. do 5 right. concrete.
  - apply Hremove. right. left. concrete.
Defined.
